(** * aRx: a shallow embedding of the reactive-stream runtime

    The development follows the Python sources module by module:

    - [Max]         aioreactive/operator/interface/max.py   (Max.Stream)
    - [UnitSource]  aRx/observable/unit.py                  (Unit._worker)
    - [PipeOp]      aRx/operations/pipe_op.py               (pipe)
    - [MultiStream] aRx/streams/multi_stream.py             (MultiStream)
    - [Take]        aRx/operator/take.py                    (Take)
    - [MapOp]       aRx/operators/map.py                    (Map)
    - [MaxClose]    aioreactive/operator/interface/max.py   (Max.Stream.__close__)

    Coroutines are embedded as computations in a state-and-exception monad:
    an [await] runs the awaited coroutine to completion, a raised exception
    keeps every effect performed before it (as in Python), and every call
    that crosses an object boundary is logged so that "who was called, with
    which arguments, in which order" can be stated.  A coroutine that
    raises [CancelledError] leaves its task cancelled, which asyncio's
    futures, [wait] and [gather] tell apart from a task that failed. *)

From Stdlib Require Import ZArith QArith.
From stdpp Require Import gmap strings list.

Set Warnings "-register-all".

Local Open Scope string_scope.
Local Open Scope list_scope.

(** ** Exceptions and outcomes *)

(** The exception classes the sources mention or can meet.  [isinstance] is
    class equality: none of these classes derives from another one below
    [Exception].  [CancelledError] is asyncio's; on the interpreters the
    code is written for (up to 3.7) it derives from [Exception]. *)
Inductive exc_class :=
  | ObserverClosedError
  | CancelledError
  | ValueError
  | TypeError
  | UserError (name : string).

(** An exception object: its class, its message and its [__context__]. *)
Inductive exc :=
  | Exc (cls : exc_class) (msg : string) (context : option exc).

Definition exc_cls (e : exc) : exc_class := let 'Exc c _ _ := e in c.
Definition exc_context (e : exc) : option exc := let 'Exc _ _ c := e in c.

(** [exc.__context__ = main_exc] *)
Definition set_context (e main_exc : exc) : exc :=
  let 'Exc c m _ := e in Exc c m (Some main_exc).

Definition is_ObserverClosedError (e : exc) : bool :=
  match exc_cls e with ObserverClosedError => true | _ => false end.

Definition is_CancelledError (e : exc) : bool :=
  match exc_cls e with CancelledError => true | _ => false end.

(** [CancelledError()], as asyncio raises it on behalf of a cancelled
    future. *)
Definition cancelled_error : exc := Exc CancelledError "" None.

(** What an awaited call does: it returns or it raises. *)
Inductive outcome (A : Type) :=
  | Returned (a : A)
  | Raised (e : exc).
Arguments Returned {A} a.
Arguments Raised {A} e.

Definition raised {A} (r : outcome A) : option exc :=
  match r with Returned _ => None | Raised e => Some e end.

Definition returned {A} (r : outcome A) : bool :=
  match r with Returned _ => true | Raised _ => false end.

(** A coroutine that raises [CancelledError] leaves its task cancelled. *)
Definition ends_cancelled {A} (r : outcome A) : bool :=
  match r with Returned _ => false | Raised e => is_CancelledError e end.

(** The errors an exception carries: itself and its context chain. *)
Fixpoint carried_errors (e : exc) : list exc :=
  match e with
  | Exc _ _ None => [e]
  | Exc _ _ (Some c) => e :: carried_errors c
  end.

(** The errors a finished call surfaces to its awaiter. *)
Definition surfaced_errors {A} (r : outcome A) : list exc :=
  match r with Returned _ => [] | Raised e => carried_errors e end.

(** ** Coroutines: state and exceptions *)

Module Eff.

Definition M (S A : Type) : Type := S → outcome A * S.

Definition ret {S A} (a : A) : M S A := λ s, (Returned a, s).

Definition raise {S A} (e : exc) : M S A := λ s, (Raised e, s).

Definition bind {S A B} (m : M S A) (k : A → M S B) : M S B :=
  λ s, match m s with
       | (Returned a, s') => k a s'
       | (Raised e, s') => (Raised e, s')
       end.

Definition get {S} : M S S := λ s, (Returned s, s).

Definition modify {S} (f : S → S) : M S unit := λ s, (Returned tt, f s).

(** [try: m  except Exception as e: h e] *)
Definition try_except {S A} (m : M S A) (h : exc → M S A) : M S A :=
  λ s, match m s with
       | (Returned a, s') => (Returned a, s')
       | (Raised e, s') => h e s'
       end.

(** [try: m  finally: fin] *)
Definition try_finally {S A} (m : M S A) (fin : M S unit) : M S A :=
  λ s, match m s with
       | (r, s') =>
           match fin s' with
           | (Returned _, s'') => (r, s'')
           | (Raised e, s'') => (Raised e, s'')
           end
       end.

(** [for x in l: body x] *)
Fixpoint for_each {S A} (l : list A) (body : A → M S unit) : M S unit :=
  match l with
  | [] => ret tt
  | x :: l' => bind (body x) (λ _, for_each l' body)
  end.

End Eff.

Declare Scope eff_scope.
Delimit Scope eff_scope with eff.
Notation "x <- m ;; k" := (Eff.bind m (λ x, k))
  (at level 100, m at next level, right associativity) : eff_scope.
Notation "m ;;; k" := (Eff.bind m (λ _, k))
  (at level 100, right associativity) : eff_scope.

(** ** aioreactive/operator/interface/max.py *)

Module Max.

(** The Python values a stream of this model carries: [None], integers,
    finite floats (as rationals) and strings.  [PyObj v] is an instance of a
    user class whose [__gt__] answers [v] when compared with [None] ([None]
    standing for [NotImplemented]) and [NotImplemented] otherwise. *)
Inductive PyVal :=
  | PyNone
  | PyInt (z : Z)
  | PyFloat (q : Q)
  | PyStr (s : string)
  | PyObj (gt_None : option bool).

(** [type(a).__gt__(a, b)]; [None] is [NotImplemented]. *)
Definition type_gt (a b : PyVal) : option bool :=
  match a, b with
  | PyInt x, PyInt y => Some (Z.ltb y x)
  | PyFloat x, PyFloat y => Some (negb (Qle_bool x y))
  | PyFloat x, PyInt y => Some (negb (Qle_bool x (inject_Z y)))
  | PyStr x, PyStr y => Some (String.ltb y x)
  | PyObj v, PyNone => v
  | _, _ => None
  end.

(** [type(a).__lt__(a, b)], the reflection the interpreter tries next. *)
Definition type_lt (a b : PyVal) : option bool :=
  match a, b with
  | PyInt x, PyInt y => Some (Z.ltb x y)
  | PyFloat x, PyFloat y => Some (negb (Qle_bool y x))
  | PyFloat x, PyInt y => Some (negb (Qle_bool (inject_Z y) x))
  | PyStr x, PyStr y => Some (String.ltb x y)
  | _, _ => None
  end.

(** The expression [a > b]. *)
Definition py_gt (a b : PyVal) : outcome bool :=
  match type_gt a b with
  | Some r => Returned r
  | None =>
      match type_lt b a with
      | Some r => Returned r
      | None =>
          Raised (Exc TypeError
                    "'>' not supported between these instances" None)
      end
  end.

(** [Max.Stream]: the only attribute the class adds is [_max]. *)
Record Stream := { _max : PyVal }.

(** [Max.Stream.__init__]: [self._max = None] *)
Definition __init__ : Stream := {| _max := PyNone |}.

(** [Max.Stream.__asend__]:
    [if value > self._max: self._max = value] *)
Definition __asend__ (value : PyVal) : Eff.M Stream unit :=
  (gt <- (λ self, (py_gt value (_max self), self)) ;;
   if gt : bool then Eff.modify (λ _, {| _max := value |})
   else Eff.ret tt)%eff.

(** A producer sending [values] one after the other; a delivery that
    raises does not stop the producer from trying the next one.  The
    result lists what each delivery did. *)
Fixpoint deliveries (values : list PyVal) (self : Stream)
  : list (outcome unit) * Stream :=
  match values with
  | [] => ([], self)
  | v :: vs =>
      let '(r, self') := __asend__ v self in
      let '(rs, self'') := deliveries vs self' in
      (r :: rs, self'')
  end.

(** The type of [v] does not order its instances against [None]. *)
Definition unordered_with_None (v : PyVal) : Prop :=
  type_gt v PyNone = None.

Definition is_TypeError {A} (r : outcome A) : Prop :=
  ∃ e, r = Raised e ∧ exc_cls e = TypeError.

End Max.

(** ** aRx/observable/unit.py *)

Module UnitSource.

Section Unit.

(** The type [K] of the values the source emits. *)
Context {K : Type}.

(** [self.namespace = uuid4()] *)
Definition UUID := positive.

(** An observer as the worker sees it: the two flags it reads and the three
    coroutines it awaits.  A coroutine is given by what the call does when
    the observer's [closed] flag has the given value: how it ends, and the
    flag afterwards.  [keep_alive] is set by the observer's constructor and
    the worker never assigns it. *)
Record Observer := {
  closed : bool;
  keep_alive : bool;
  asend : K → option UUID → bool → outcome unit * bool;
  araise : exc → option UUID → bool → outcome unit * bool;
  aclose : bool → outcome unit * bool
}.

Definition set_closed (c : bool) (o : Observer) : Observer :=
  {| closed := c; keep_alive := keep_alive o;
     asend := asend o; araise := araise o; aclose := aclose o |}.

(** The calls the worker makes on the observer, with their actual
    arguments; an omitted [namespace] argument is [None]. *)
Inductive Call :=
  | CallAsend (value : K) (namespace : option UUID)
  | CallAraise (ex : exc) (namespace : option UUID)
  | CallAclose.

(** The observer object and the log of the calls made on it. *)
Record World := { observer : Observer; calls : list Call }.

Definition invoke (c : Call) (method : bool → outcome unit * bool)
  : Eff.M World unit :=
  λ w, let '(r, closed') := method (closed (observer w)) in
       (r, {| observer := set_closed closed' (observer w);
              calls := calls w ++ [c] |}).

(** [await observer.asend(value)] / [await observer.asend(value, namespace)] *)
Definition observer_asend (value : K) (namespace : option UUID)
  : Eff.M World unit :=
  λ w, invoke (CallAsend value namespace)
              (asend (observer w) value namespace) w.

(** [await observer.araise(ex, namespace)] *)
Definition observer_araise (ex : exc) (namespace : option UUID)
  : Eff.M World unit :=
  λ w, invoke (CallAraise ex namespace)
              (araise (observer w) ex namespace) w.

(** [await observer.aclose()] *)
Definition observer_aclose : Eff.M World unit :=
  λ w, invoke CallAclose (aclose (observer w)) w.

(** [self._value]: a plain value, or a future ([isfuture(value)]) given by
    what awaiting it yields. *)
Inductive Value :=
  | Plain (value : K)
  | Future (awaited : outcome K).

(** [Unit._worker(value, observer, namespace)]; the observer is the one of
    the state. *)
Definition _worker (value : Value) (namespace : UUID) : Eff.M World unit :=
  (match value with
   | Future awaited =>                       (* if isfuture(value): *)
       match awaited with                    (*   try: value = await value *)
       | Raised ex =>                        (*   except Exception as ex: *)
           observer_araise ex (Some namespace)
       | Returned value =>                   (*   else: *)
           observer_asend value None
       end
   | Plain value =>                          (* else: *)
       observer_asend value None
   end ;;;
   w <- Eff.get ;;
   if negb (closed (observer w) || keep_alive (observer w))
   then observer_aclose
   else Eff.ret tt)%eff.

(** Running the worker on a fresh log. *)
Definition run_worker (value : Value) (o : Observer) (namespace : UUID)
  : outcome unit * World :=
  _worker value namespace {| observer := o; calls := [] |}.

(** The delivery the worker starts with, run alone. *)
Definition delivery (value : Value) (namespace : UUID) : Eff.M World unit :=
  match value with
  | Future (Raised ex) => observer_araise ex (Some namespace)
  | Future (Returned value) => observer_asend value None
  | Plain value => observer_asend value None
  end.

End Unit.

Arguments Observer K : clear implicits.
Arguments Call K : clear implicits.
Arguments World K : clear implicits.
Arguments Value K : clear implicits.

(** An observer that accepts everything, records nothing and closes on
    [aclose]. *)
Definition accepting (keep_alive : bool) : Observer Z :=
  {| closed := false; keep_alive := keep_alive;
     asend := λ _ _ c, (Returned tt, c);
     araise := λ _ _ c, (Returned tt, c);
     aclose := λ _, (Returned tt, true) |}.

End UnitSource.

(** ** aRx/operations/pipe_op.py *)

Module PipeOp.

(** Observables, transformers and observers are referred to by name. *)
Definition Ref := string.

(** [class pipe(observe)]: the observable and the observer (the
    transformer) of the underlying observation, and [self._previous]. *)
Inductive pipe :=
  | Pipe (observable : Ref) (_transformer : Ref) (_previous : option pipe).

Definition observable (self : pipe) : Ref := let 'Pipe o _ _ := self in o.
Definition _transformer (self : pipe) : Ref := let 'Pipe _ t _ := self in t.
Definition _previous (self : pipe) : option pipe :=
  let 'Pipe _ _ p := self in p.

(** [pipe.__init__(observable, transformer, previous_pipe=None)] *)
Definition __init__ (observable transformer : Ref)
  (previous_pipe : option pipe) : pipe :=
  Pipe observable transformer previous_pipe.

(** [pipe.__or__]:
    [pipe(self._transformer, transformer, previous_pipe=self)] *)
Definition __or__ (self : pipe) (transformer : Ref) : pipe :=
  __init__ (_transformer self) transformer (Some self).

(** [source | t1 | t2 | ...] *)
Definition chain (source first : Ref) (more : list Ref) : pipe :=
  fold_left __or__ more (__init__ source first None).

(** What happens to an observation: [observe.__aenter__] attaches the
    observer to the observable, [observe.__aexit__] disposes of the
    attachment. *)
Inductive Event :=
  | Attach (observable observer : Ref)
  | Dispose (observable observer : Ref).

Section Observe.

(** The base class [observe] is not part of this module: how entering and
    exiting one observation ends is a parameter. *)
Variable observe_aenter_outcome : Ref → Ref → outcome unit.
Variable observe_aexit_outcome : Ref → Ref → outcome unit.

(** [await super().__aenter__()] *)
Definition observe_aenter (self : pipe) : Eff.M (list Event) unit :=
  λ log, (observe_aenter_outcome (observable self) (_transformer self),
          log ++ [Attach (observable self) (_transformer self)]).

(** [await super().__aexit__(exc_type, exc_value, traceback)] *)
Definition observe_aexit (self : pipe) : Eff.M (list Event) unit :=
  λ log, (observe_aexit_outcome (observable self) (_transformer self),
          log ++ [Dispose (observable self) (_transformer self)]).

(** [pipe.__aenter__] *)
Fixpoint __aenter__ (self : pipe) : Eff.M (list Event) Ref :=
  match self with
  | Pipe _ transformer previous =>
      (observe_aenter self ;;;
       match previous with                   (* if self._previous: *)
       | Some prev => _ <- __aenter__ prev ;; Eff.ret tt
       | None => Eff.ret tt
       end ;;;
       Eff.ret transformer)%eff
  end.

(** [pipe.__aexit__] *)
Fixpoint __aexit__ (self : pipe) : Eff.M (list Event) unit :=
  match self with
  | Pipe _ _ previous =>
      (match previous with                   (* if self._previous is not None: *)
       | Some prev => __aexit__ prev
       | None => Eff.ret tt
       end ;;;
       observe_aexit self)%eff
  end.

End Observe.

(** The observations of a chain, newest stage first. *)
Fixpoint observations (self : pipe) : list (Ref * Ref) :=
  match self with
  | Pipe o t previous =>
      (o, t) :: match previous with
                | Some prev => observations prev
                | None => []
                end
  end.

(** [a] occurs in [l] at an earlier position than [b]. *)
Definition precedes {A} (a b : A) (l : list A) : Prop :=
  ∃ i j, l !! i = Some a ∧ l !! j = Some b ∧ i < j.

(** No observation fails to attach or to dispose. *)
Definition never_fails (f : Ref → Ref → outcome unit) : Prop :=
  ∀ o t, f o t = Returned tt.

Definition succeed : Ref → Ref → outcome unit := λ _ _, Returned tt.

(** The events of attaching, and of disposing of, a list of observations. *)
Definition attaches (l : list (Ref * Ref)) : list Event :=
  map (λ p, Attach p.1 p.2) l.

Definition disposes (l : list (Ref * Ref)) : list Event :=
  map (λ p, Dispose p.1 p.2) l.

(** The observations of [source -> t1 -> t2 -> ...], the one on the source
    first: each stage observes the one before it. *)
Fixpoint links (source : Ref) (stages : list Ref) : list (Ref * Ref) :=
  match stages with
  | [] => []
  | t :: stages' => (source, t) :: links t stages'
  end.

(** The teardown order in which the observation of the downstream stage
    [t2] (on [t1]) is disposed of before the observation of [t1] (on the
    source). *)
Definition downstream_first (source t1 t2 : Ref) (log : list Event) : Prop :=
  precedes (Dispose t1 t2) (Dispose source t1) log.

(** The opposite order. *)
Definition upstream_first (source t1 t2 : Ref) (log : list Event) : Prop :=
  precedes (Dispose source t1) (Dispose t1 t2) log.

End PipeOp.

(** ** aRx/streams/multi_stream.py *)

Module MultiStream.

(** Python objects are told apart by identity. *)
Definition ObsId := positive.

(** Modelled from the spec: the [Namespace] class is not in this module.
    A namespace is an immutable causality record (the kind of participant,
    its identity, the action) with an optional link to the namespace of the
    immediate upstream cause. *)
Inductive Namespace :=
  | MkNamespace (type : string) (ref : ObsId) (action : string)
      (previous : option Namespace).

Definition previous (n : Namespace) : option Namespace :=
  let 'MkNamespace _ _ _ p := n in p.

Definition is_root (n : Namespace) : bool :=
  match previous n with None => true | Some _ => false end.

(** The length of the chain behind a namespace. *)
Fixpoint depth (n : Namespace) : nat :=
  match n with
  | MkNamespace _ _ _ None => 0
  | MkNamespace _ _ _ (Some p) => S (depth p)
  end.

(** [n'] was built for one delivery on top of [n]. *)
Definition chained_to (n n' : Namespace) : Prop := previous n' = Some n.

Section Hub.

(** The type [K] of the values the stream relays. *)
Context {K : Type}.

(** A member of the observer set, as the hub sees it: the flag it reads and
    the coroutines it awaits.  [asend] and [athrow] give how the call ends
    and the member's [closed] flag afterwards.  [dispose] stands for
    [observe(self, obv).dispose()], a helper that is not part of this
    module: whether it reaches the hub's [__dispose__] hook, and how it
    ends. *)
Record ObserverProtocol := {
  closed : bool;
  asend : K → Namespace → outcome unit * bool;
  athrow : exc → Namespace → outcome unit * bool;
  dispose : bool * outcome unit
}.

Definition set_closed (c : bool) (o : ObserverProtocol) : ObserverProtocol :=
  {| closed := c; asend := asend o; athrow := athrow o;
     dispose := dispose o |}.

(** The task made by [loop.create_task(self._clear_closed_observers())], as
    the reference held in [self._disposables] shows it. *)
Inductive Task := Pending | Finished.

(** The context handed to [loop.call_exception_handler]. *)
Record Report := {
  future : option ObsId;
  message : string;
  exception : exc
}.

(** The calls the hub makes on its members. *)
Inductive Call :=
  | CallAsend (obv : ObsId) (value : K) (namespace : Namespace)
  | CallAthrow (obv : ObsId) (main_exc : exc) (namespace : Namespace)
  | CallDispose (obv : ObsId).

(** The hub and what it acts upon:
    - [stream_closed]: the [closed] flag it inherits from [Observer];
    - [_observers]: the set of observer objects, a finite map from the
      identity of each member to the member;
    - [_disposables]: the pending sweep, if any;
    - [name]: [str(self)];
    - [exception_handler]: the contexts received by the loop's exception
      handler, oldest first;
    - [calls]: the log of the calls made on members, oldest first. *)
Record State := {
  stream_closed : bool;
  _observers : gmap ObsId ObserverProtocol;
  _disposables : option Task;
  name : string;
  exception_handler : list Report;
  calls : list Call
}.

Definition with_observers (f : gmap ObsId ObserverProtocol →
                               gmap ObsId ObserverProtocol) (s : State)
  : State :=
  {| stream_closed := stream_closed s; _observers := f (_observers s);
     _disposables := _disposables s; name := name s;
     exception_handler := exception_handler s; calls := calls s |}.

Definition with_disposables (d : option Task) (s : State) : State :=
  {| stream_closed := stream_closed s; _observers := _observers s;
     _disposables := d; name := name s;
     exception_handler := exception_handler s; calls := calls s |}.

Definition with_report (r : Report) (s : State) : State :=
  {| stream_closed := stream_closed s; _observers := _observers s;
     _disposables := _disposables s; name := name s;
     exception_handler := exception_handler s ++ [r]; calls := calls s |}.

Definition with_call (c : Call) (s : State) : State :=
  {| stream_closed := stream_closed s; _observers := _observers s;
     _disposables := _disposables s; name := name s;
     exception_handler := exception_handler s; calls := calls s ++ [c] |}.

(** [MultiStream.__init__]: an open stream with no observer and no sweep. *)
Definition __init__ (name : string) : State :=
  {| stream_closed := false; _observers := ∅; _disposables := None;
     name := name; exception_handler := []; calls := [] |}.

(** Iterating over [self._observers]. *)
Definition members (s : State) : list (ObsId * ObserverProtocol) :=
  map_to_list (_observers s).

(** [self.loop.call_exception_handler(context)] *)
Definition call_exception_handler (context : Report) : Eff.M State unit :=
  Eff.modify (with_report context).

(** [obv.asend(value, namespace)]: the coroutine of one member delivery. *)
Definition obv_asend (value : K) (namespace : Namespace)
  (m : ObsId * ObserverProtocol) : Eff.M State unit :=
  λ s, let '(r, c) := asend m.2 value namespace in
       (r, with_observers (alter (set_closed c) m.1)
             (with_call (CallAsend m.1 value namespace) s)).

(** [obv.athrow(main_exc, namespace)] *)
Definition obv_athrow (main_exc : exc) (namespace : Namespace)
  (m : ObsId * ObserverProtocol) : Eff.M State unit :=
  λ s, let '(r, c) := athrow m.2 main_exc namespace in
       (r, with_observers (alter (set_closed c) m.1)
             (with_call (CallAthrow m.1 main_exc namespace) s)).

(** [MultiStream.__observe__] *)
Definition __observe__ (observer : ObsId * ObserverProtocol)
  : Eff.M State unit :=
  Eff.modify (with_observers (insert observer.1 observer.2)).

(** [MultiStream.__dispose__]: [remove] raises [KeyError] for an absent
    observer, which is suppressed. *)
Definition __dispose__ (observer : ObsId) : Eff.M State unit :=
  λ s, match _observers s !! observer with
       | Some _ => (Returned tt, with_observers (delete observer) s)
       | None => (Returned tt, s)
       end.

(** [observe(self, obv).dispose()] *)
Definition observe_dispose (m : ObsId * ObserverProtocol)
  : Eff.M State unit :=
  (Eff.modify (with_call (CallDispose m.1)) ;;;
   (if (dispose m.2).1 then __dispose__ m.1 else Eff.ret tt) ;;;
   λ s, ((dispose m.2).2, s))%eff.

(** How the task wrapped around a coroutine ended: with a result, with an
    exception, or cancelled. *)
Inductive Ended :=
  | Succeeded
  | Failed (e : exc)
  | Cancelled.

(** A coroutine that returns gives its task a result, one that raises
    gives it the exception, and one that raises [CancelledError] cancels
    it. *)
Definition ended (r : outcome unit) : Ended :=
  match r with
  | Returned _ => Succeeded
  | Raised e => if is_CancelledError e then Cancelled else Failed e
  end.

(** A future of [done]: the member it delivers to, and how its task
    ended. *)
Record Fut := { fut_obv : ObsId; fut_ended : Ended }.

(** Running one awaitable of [wait] to completion as a future. *)
Definition as_future (c : ObsId * Eff.M State unit) : Eff.M State Fut :=
  λ s, let '(r, s') := c.2 s in
       (Returned {| fut_obv := c.1; fut_ended := ended r |}, s').

(** [fut.exception()]: the exception set on the future, [None] when it
    holds a result; on a cancelled future the call raises
    [CancelledError]. *)
Definition fut_exception (fut : Fut) : Eff.M State (option exc) :=
  match fut_ended fut with
  | Succeeded => Eff.ret None
  | Failed e => Eff.ret (Some e)
  | Cancelled => Eff.raise cancelled_error
  end.

Fixpoint run_futures (fs : list (ObsId * Eff.M State unit))
  : Eff.M State (list Fut) :=
  match fs with
  | [] => Eff.ret []
  | c :: fs' =>
      (fut <- as_future c ;;
       futs <- run_futures fs' ;;
       Eff.ret (fut :: futs))%eff
  end.

(** The exception of [asyncio.wait] for an empty set of awaitables. *)
Definition empty_wait : exc :=
  Exc ValueError "Set of coroutines/Futures is empty." None.

(** [await asyncio.wait(fs, return_when=ALL_COMPLETED)]: an empty [fs] is
    refused with [ValueError]; otherwise every awaitable is run to
    completion, whatever the others do, and [done] holds them all
    ([pending] is empty), cancelled ones included.  [done] is a set: the
    order in which its futures are met is that of [fs] here.  The
    awaitables are what runs while the caller is suspended: a sweep that
    is still pending when the fan-out starts would be run by the loop
    meanwhile and detach the closed members, which is left out here; the
    statements below that such a sweep bears on (the observer set and
    [_disposables] after one fan-out) are made of hubs that hold no
    pending sweep. *)
Definition wait (fs : list (ObsId * Eff.M State unit))
  : Eff.M State (list Fut) :=
  match fs with
  | [] => Eff.raise empty_wait
  | _ :: _ => run_futures fs
  end.

(** What [gather] sets on its outer future for a child that ended with
    [e]: the exception of the child, or a new [CancelledError] for a child
    that was cancelled. *)
Definition gathered (e : exc) : exc :=
  if is_CancelledError e then cancelled_error else e.

(** [await asyncio.gather] over the awaitables [aws], with
    [return_exceptions] left [False]: every awaitable is run, and the first
    exception raised is the one propagated to the awaiter. *)
Fixpoint gather (aws : list (Eff.M State unit)) : Eff.M State unit :=
  match aws with
  | [] => Eff.ret tt
  | c :: aws' =>
      λ s, let '(r, s') := c s in
           let '(r', s'') := gather aws' s' in
           (match r with
            | Raised e => Raised (gathered e)
            | Returned _ => r'
            end, s'')
  end.

(** [MultiStream._clear_closed_observers] *)
Definition _clear_closed_observers : Eff.M State unit :=
  (s <- Eff.get ;;
   let disposables := List.filter (λ m, closed m.2) (members s) in
   match disposables with
   | [] => Eff.ret tt                                (* Nothing to do *)
   | _ :: _ =>
       Eff.try_finally
         (Eff.try_except
            (gather (map observe_dispose disposables))
            (λ exc,
               if is_CancelledError exc then
                 Eff.raise exc                       (* except CancelledError: raise *)
               else
                 call_exception_handler
                   {| future := None;
                      message :=
                        (name s ++ ": Failed to dispose a closed observer")%string;
                      exception := exc |}))
         (Eff.modify (with_disposables None))        (* finally: *)
   end)%eff.

(** [if not self._disposables:
       self._disposables = self.loop.create_task(...)] *)
Definition enqueue_clearing : Eff.M State unit :=
  (s <- Eff.get ;;
   match _disposables s with
   | None => Eff.modify (with_disposables (Some Pending))
   | Some _ => Eff.ret tt
   end)%eff.

(** The loop running the task of [self._disposables]; the reference keeps
    pointing at the task, now finished, unless the sweep reset it.  A
    sweep that raises (it re-raises [CancelledError] only) has reset the
    reference and leaves its task cancelled. *)
Definition run_task : Eff.M State unit :=
  (_clear_closed_observers ;;;
   s <- Eff.get ;;
   match _disposables s with
   | Some _ => Eff.modify (with_disposables (Some Finished))
   | None => Eff.ret tt
   end)%eff.

(** [await self._disposables]: a task that is still pending is run, and
    the awaiter is raised at with [CancelledError] if it ends cancelled. *)
Definition await_task (t : Task) : Eff.M State unit :=
  match t with
  | Pending => run_task
  | Finished => Eff.ret tt
  end.

(** [if not self._observers] *)
Definition no_observers (s : State) : bool :=
  match members s with [] => true | _ :: _ => false end.

(** The members a fan-out delivers to: [obv for obv in self._observers
    if not obv.closed]. *)
Definition open_members (s : State) : list (ObsId * ObserverProtocol) :=
  List.filter (λ m, negb (closed m.2)) (members s).

(** The body of [for fut in done] in [_asend]: an [ObserverClosedError] is
    ignored, any other exception goes to the loop's exception handler.
    ([if exc and ...]: an exception object is true.)  Nothing guards
    [fut.exception()]: on a cancelled future it raises out of the loop. *)
Definition asend_done (self_name : string) (fut : Fut) : Eff.M State unit :=
  (exc <- fut_exception fut ;;
   match exc with
   | Some exc =>
       if negb (is_ObserverClosedError exc) then
         call_exception_handler
           {| future := Some (fut_obv fut);
              message :=
                (self_name ++ ": Unhandled exception while attempting to propagate data through observers")%string;
              exception := exc |}
       else Eff.ret tt
   | None => Eff.ret tt
   end)%eff.

(** The body of [for fut in done] in [_athrow]; the exception reported has
    [main_exc] as its [__context__]. *)
Definition athrow_done (self_name : string) (main_exc : exc) (fut : Fut)
  : Eff.M State unit :=
  (exc <- fut_exception fut ;;
   match exc with
   | Some exc =>
       if negb (is_ObserverClosedError exc) then
         call_exception_handler
           {| future := Some (fut_obv fut);
              message :=
                (self_name ++ ": Unhandled exception while attempting to propagate exception through observers")%string;
              exception := set_context exc main_exc |}
       else Eff.ret tt
   | None => Eff.ret tt
   end)%eff.

(** [MultiStream._asend] *)
Definition _asend (value : K) (namespace : Namespace) : Eff.M State unit :=
  (s <- Eff.get ;;
   if no_observers s then Eff.ret tt else
   done <- wait (map (λ m, (m.1, obv_asend value namespace m))
                     (open_members s)) ;;
   Eff.for_each done (asend_done (name s)) ;;;
   enqueue_clearing)%eff.

(** [MultiStream._athrow] *)
Definition _athrow (main_exc : exc) (namespace : Namespace)
  : Eff.M State bool :=
  (s <- Eff.get ;;
   (if no_observers s then Eff.ret tt else
    done <- wait (map (λ m, (m.1, obv_athrow main_exc namespace m))
                      (open_members s)) ;;
    Eff.for_each done (athrow_done (name s) main_exc) ;;;
    enqueue_clearing) ;;;
   (* A MultiStream never closes on athrow *)
   Eff.ret false)%eff.

(** [MultiStream._aclose] *)
Definition _aclose : Eff.M State unit :=
  (s <- Eff.get ;;
   match _disposables s with
   | Some task => await_task task
   | None => Eff.ret tt
   end ;;;
   s <- Eff.get ;;
   gather (map observe_dispose (members s)))%eff.

(** *** What a step leaves alone *)

(** The hub's own [closed] flag and its name. *)
Definition same_hub (s s' : State) : Prop :=
  stream_closed s' = stream_closed s ∧ name s' = name s.

(** The future of the delivery to [m], when it ends as [result m]. *)
Definition future_of (result : ObsId * ObserverProtocol → outcome unit)
  (m : ObsId * ObserverProtocol) : Fut :=
  {| fut_obv := m.1; fut_ended := ended (result m) |}.

Definition cancelled (fut : Fut) : bool :=
  match fut_ended fut with Cancelled => true | _ => false end.

(** The futures of [done] that the loop over [done] gets past: those met
    before the first cancelled one. *)
Fixpoint uncancelled (done : list Fut) : list Fut :=
  match done with
  | [] => []
  | fut :: done' =>
      if cancelled fut then [] else fut :: uncancelled done'
  end.

(** The exceptions held by the futures of [done], by member. *)
Definition failures_of (done : list Fut) : list (ObsId * exc) :=
  omap (λ fut, match fut_ended fut with
               | Failed e => Some (fut_obv fut, e)
               | _ => None
               end) done.

(** *** What a fan-out amounts to *)

(** Whether a member delivery of the fan-out ends cancelled. *)
Definition asend_cancelled (value : K) (namespace : Namespace)
  (l : list (ObsId * ObserverProtocol)) : bool :=
  existsb (λ m, ends_cancelled (asend m.2 value namespace).1) l.

Definition athrow_cancelled (main_exc : exc) (namespace : Namespace)
  (l : list (ObsId * ObserverProtocol)) : bool :=
  existsb (λ m, ends_cancelled (athrow m.2 main_exc namespace).1) l.

(** [if not self._disposables: self._disposables = ...], on the
    reference. *)
Definition enqueued (d : option Task) : option Task :=
  match d with None => Some Pending | Some task => Some task end.

(** The exceptions the member deliveries of a fan-out end with, by member. *)
Definition asend_failures (value : K) (namespace : Namespace)
  (l : list (ObsId * ObserverProtocol)) : list (ObsId * exc) :=
  omap (λ m, pair m.1 <$> raised (asend m.2 value namespace).1) l.

Definition athrow_failures (main_exc : exc) (namespace : Namespace)
  (l : list (ObsId * ObserverProtocol)) : list (ObsId * exc) :=
  omap (λ m, pair m.1 <$> raised (athrow m.2 main_exc namespace).1) l.

(** The failures that are not [ObserverClosedError]. *)
Definition reportable (l : list (ObsId * exc)) : list (ObsId * exc) :=
  List.filter (λ f, negb (is_ObserverClosedError f.2)) l.

Definition asend_report (self_name : string) (f : ObsId * exc) : Report :=
  {| future := Some f.1;
     message :=
       (self_name ++ ": Unhandled exception while attempting to propagate data through observers")%string;
     exception := f.2 |}.

Definition athrow_report (self_name : string) (main_exc : exc)
  (f : ObsId * exc) : Report :=
  {| future := Some f.1;
     message :=
       (self_name ++ ": Unhandled exception while attempting to propagate exception through observers")%string;
     exception := set_context f.2 main_exc |}.

(** The first exception raised among the disposals of [l], if any. *)
Definition first_dispose_failure (l : list (ObsId * ObserverProtocol))
  : option exc :=
  head (omap (λ m, raised (dispose m.2).2) l).

(** All of them. *)
Definition dispose_failures (l : list (ObsId * ObserverProtocol))
  : list exc :=
  omap (λ m, raised (dispose m.2).2) l.


(** The context the sweep hands to the loop's exception handler. *)
Definition sweep_report (self_name : string) (e : exc) : Report :=
  {| future := None;
     message := (self_name ++ ": Failed to dispose a closed observer")%string;
     exception := e |}.

(** The members a sweep disposes of. *)
Definition closed_members (s : State) : list (ObsId * ObserverProtocol) :=
  List.filter (λ m, closed m.2) (members s).

(** How a sweep of [s] ends: it raises [CancelledError] when the first
    disposal to fail ended cancelled, and returns otherwise. *)
Definition sweep_outcome (s : State) : outcome unit :=
  match first_dispose_failure (closed_members s) with
  | Some e => if is_CancelledError e then Raised cancelled_error
              else Returned tt
  | None => Returned tt
  end.

(** What a sweep of [s] hands to the loop's exception handler: the first
    disposal failure, unless it is a cancellation. *)
Definition sweep_reports (s : State) : list Report :=
  match first_dispose_failure (closed_members s) with
  | Some e => if is_CancelledError e then [] else [sweep_report (name s) e]
  | None => []
  end.

(** [if self._disposables: await self._disposables] *)
Definition awaited_sweep (s : State) : outcome unit * State :=
  match _disposables s with
  | Some task => await_task task s
  | None => (Returned tt, s)
  end.

(** The state in which [_aclose] reaches its [gather]: after the pending
    sweep, if there is one, has been awaited. *)
Definition after_sweep (s : State) : State :=
  match _disposables s with
  | Some task => (await_task task s).2
  | None => s
  end.

(** The fan-out hands every member a namespace of its own, chained to the
    caller's. *)
Definition fresh_namespace_per_member (namespace : Namespace)
  (cs : list Call) : Prop :=
  ∀ c, c ∈ cs →
       ∃ obv value namespace',
         c = CallAsend obv value namespace' ∧ chained_to namespace namespace'.

(** The failure surfaced by [r] holds every one of [failures]. *)
Definition aggregates (failures : list exc) (r : outcome unit) : Prop :=
  ∀ e, e ∈ failures → e ∈ surfaced_errors r.

End Hub.

Arguments ObserverProtocol K : clear implicits.
Arguments Call K : clear implicits.
Arguments State K : clear implicits.

(** *** Sample observers and hubs *)

Definition boom : exc := Exc (UserError "Boom") "boom" None.
Definition bang : exc := Exc (UserError "Bang") "bang" None.
Definition observer_closed : exc :=
  Exc ObserverClosedError "Observer is closed" None.

(** An observer that accepts whatever it is sent. *)
Definition accepting : ObserverProtocol Z :=
  {| closed := false;
     asend := λ _ _, (Returned tt, false);
     athrow := λ _ _, (Returned tt, false);
     dispose := (true, Returned tt) |}.

(** An observer whose deliveries raise [e] and whose disposal raises [e]
    too, after detaching. *)
Definition failing (e : exc) : ObserverProtocol Z :=
  {| closed := false;
     asend := λ _ _, (Raised e, false);
     athrow := λ _ _, (Raised e, false);
     dispose := (true, Raised e) |}.

(** An observer that closes between the hub's look at [closed] and the
    delivery. *)
Definition closing : ObserverProtocol Z :=
  {| closed := false;
     asend := λ _ _, (Raised observer_closed, true);
     athrow := λ _ _, (Raised observer_closed, true);
     dispose := (true, Returned tt) |}.

(** An observer that is closed already. *)
Definition stale : ObserverProtocol Z :=
  {| closed := true;
     asend := λ _ _, (Raised observer_closed, true);
     athrow := λ _ _, (Raised observer_closed, true);
     dispose := (true, Returned tt) |}.

(** An observer that is closed already and whose disposal ends cancelled,
    after detaching. *)
Definition stale_cancelled : ObserverProtocol Z :=
  {| closed := true;
     asend := λ _ _, (Raised observer_closed, true);
     athrow := λ _ _, (Raised observer_closed, true);
     dispose := (true, Raised cancelled_error) |}.

Definition hub_of (l : list (ObsId * ObserverProtocol Z)) : State Z :=
  {| stream_closed := false; _observers := list_to_map l;
     _disposables := None; name := "hub";
     exception_handler := []; calls := [] |}.

(** A closed, B raises, C accepts, D closes under the hub's feet. *)
Definition mixed_hub : State Z :=
  hub_of [(1%positive, stale); (2%positive, failing boom);
          (3%positive, accepting); (4%positive, closing)].

(** The only member has closed and has not been swept yet. *)
Definition stale_hub : State Z := hub_of [(1%positive, stale)].

(** Two members whose disposals both fail. *)
Definition failing_hub : State Z :=
  hub_of [(1%positive, failing boom); (2%positive, failing bang)].

(** A member whose deliveries end cancelled, and one that accepts. *)
Definition cancelling_hub : State Z :=
  hub_of [(2%positive, failing cancelled_error); (3%positive, accepting)].

(** A sweep is pending; the disposal of the closed member ends cancelled,
    the other member is open. *)
Definition interrupted_hub : State Z :=
  with_disposables (Some Pending)
    (hub_of [(1%positive, stale_cancelled); (3%positive, accepting)]).

(** The root namespace of a send by the hub. *)
Definition root : Namespace := MkNamespace "MultiStream" 9%positive "asend" None.

End MultiStream.

(** ** MultiStream: the producer and the disposals as a whole *)

Module MultiStreamRuns.

Import MultiStream.

Section Runs.

Context {K : Type}.

(** A producer awaiting [stream._asend(value, namespace)] for one event
    after the other. *)
Definition send_all (events : list (K * Namespace))
  : Eff.M (State K) unit :=
  Eff.for_each events (λ ev, _asend ev.1 ev.2).

(** What the deliveries of one [_asend] make of the observer set: the
    member delivered to has its [closed] flag as the delivery left it. *)
Definition delivered (value : K) (namespace : Namespace)
  (l : list (ObsId * ObserverProtocol K))
  (observers : gmap ObsId (ObserverProtocol K))
  : gmap ObsId (ObserverProtocol K) :=
  foldl (λ obs m, alter (set_closed (asend m.2 value namespace).2) m.1 obs)
        observers l.

(** What the disposals of [l] leave of the observer set: a member goes
    when its disposal reaches the hub's [__dispose__]. *)
Definition detached (l : list (ObsId * ObserverProtocol K))
  (observers : gmap ObsId (ObserverProtocol K))
  : gmap ObsId (ObserverProtocol K) :=
  foldl (λ obs m, if (dispose m.2).1 then delete m.1 obs else obs)
        observers l.

(** A member that is open and that no delivery of a value closes. *)
Definition stays_open (o : ObserverProtocol K) : Prop :=
  closed o = false ∧ ∀ value namespace, (asend o value namespace).2 = false.

(** Every member is open and stays so. *)
Definition all_stay_open (s : State K) : Prop :=
  ∀ obv o, _observers s !! obv = Some o → stays_open o.

(** No delivery of a value to a member ends cancelled. *)
Definition none_cancelled (s : State K) : Prop :=
  ∀ obv o, _observers s !! obv = Some o →
           ∀ value namespace,
             ends_cancelled (asend o value namespace).1 = false.

(** The disposal of every member reaches the hub's [__dispose__]. *)
Definition all_reach_dispose (s : State K) : Prop :=
  ∀ obv o, _observers s !! obv = Some o → (dispose o).1 = true.

(** The fan-outs of a run of events over the members [l], in order. *)
Definition relayed (events : list (K * Namespace))
  (l : list (ObsId * ObserverProtocol K)) : list (Call K) :=
  events ≫= λ ev, map (λ m, CallAsend m.1 ev.1 ev.2) l.

End Runs.

End MultiStreamRuns.

(** ** aRx/operator/take.py *)

Module Take.

Section Take.

(** The types of the values and of the namespaces sent along with them. *)
Context {K N : Type}.

(** [collections.deque(maxlen=...)] *)
Record Deque := { maxlen : nat; items : list (K * N) }.

(** [deque.append(x)]: a deque that is full drops its leftmost item. *)
Definition append (x : K * N) (q : Deque) : Deque :=
  {| maxlen := maxlen q;
     items := if (length (items q) <? maxlen q)%nat
              then items q ++ [x]
              else drop 1 (items q ++ [x]) |}.

(** The calls [Take] makes on its base class [SingleStream]. *)
Inductive Call :=
  | SuperAsend (value : K) (namespace : N)
  | SuperAclose.

(** A [Take] stream: its two attributes, the [closed] flag it inherits
    from [Observer], and the log of its calls on [super()]. *)
Record State := {
  _count : Z;
  _reverse_queue : option Deque;
  closed : bool;
  super_calls : list Call
}.

(** [Take.__init__(count)] *)
Definition __init__ (count : Z) : State :=
  {| _count := Z.abs count;
     _reverse_queue :=
       if (count <? 0)%Z
       then Some {| maxlen := Z.to_nat (Z.abs count); items := [] |}
       else None;
     closed := false;
     super_calls := [] |}.

(** [SingleStream] is not part of this module: how its [__asend__] and
    [__aclose__] end is a parameter. *)
Variable super_asend_outcome : K → N → outcome unit.
Variable super_aclose_outcome : outcome unit.

Definition log (c : Call) (s : State) : State :=
  {| _count := _count s; _reverse_queue := _reverse_queue s;
     closed := closed s; super_calls := super_calls s ++ [c] |}.

(** [await super().__asend__(value, namespace)] *)
Definition super_asend (value : K) (namespace : N) : Eff.M State unit :=
  λ s, (super_asend_outcome value namespace,
        log (SuperAsend value namespace) s).

(** [await super().__aclose__()] *)
Definition super_aclose : Eff.M State unit :=
  λ s, (super_aclose_outcome, log SuperAclose s).

Definition set_queue (q : option Deque) (s : State) : State :=
  {| _count := _count s; _reverse_queue := q;
     closed := closed s; super_calls := super_calls s |}.

(** [while self._reverse_queue:] pop the leftmost item and await
    [super().__asend__] on its value and namespace; on the items the deque
    holds. *)
Fixpoint drain (maxlen : nat) (items : list (K * N)) : Eff.M State unit :=
  match items with
  | [] => Eff.ret tt
  | x :: items' =>
      (Eff.modify (set_queue (Some {| maxlen := maxlen; items := items' |})) ;;;
       super_asend x.1 x.2 ;;;
       drain maxlen items')%eff
  end.

(** [Take.__aclose__] *)
Definition __aclose__ : Eff.M State unit :=
  (s <- Eff.get ;;
   match _reverse_queue s with
   | Some q => drain (maxlen q) (items q)
   | None => Eff.ret tt
   end ;;;
   super_aclose)%eff.

(** Modelled from the spec: [Observer.aclose], which is not part of this
    module.  Closing is idempotent: the first call marks the observer
    closed and runs its [__aclose__], a later one does nothing. *)
Definition aclose : Eff.M State unit :=
  (s <- Eff.get ;;
   if closed s then Eff.ret tt else
   Eff.modify (λ s, {| _count := _count s;
                       _reverse_queue := _reverse_queue s;
                       closed := true; super_calls := super_calls s |}) ;;;
   __aclose__)%eff.

(** [Take.__asend__] *)
Definition __asend__ (value : K) (namespace : N) : Eff.M State unit :=
  (s <- Eff.get ;;
   match _reverse_queue s with
   | None =>
       if (0 <? _count s)%Z then
         Eff.modify (λ s, {| _count := _count s - 1;
                             _reverse_queue := _reverse_queue s;
                             closed := closed s;
                             super_calls := super_calls s |}) ;;;
         super_asend value namespace
       else aclose
   | Some q =>
       Eff.modify (set_queue (Some (append (value, namespace) q)))
   end)%eff.

(** The calls relaying [events] to the base class. *)
Definition relays (events : list (K * N)) : list Call :=
  map (λ ev, SuperAsend ev.1 ev.2) events.

(** The upstream sending [events] one after the other, whatever each
    delivery does; the result lists how each one ended. *)
Fixpoint feed (events : list (K * N)) (s : State)
  : list (outcome unit) * State :=
  match events with
  | [] => ([], s)
  | ev :: events' =>
      let '(r, s') := __asend__ ev.1 ev.2 s in
      let '(rs, s'') := feed events' s' in
      (r :: rs, s'')
  end.

End Take.

Arguments Deque K N : clear implicits.
Arguments Call K N : clear implicits.
Arguments State K N : clear implicits.

End Take.

(** ** aRx/operators/map.py *)

Module MapOp.

Section Map.

(** The type of the values, before and after the mapping. *)
Context {V : Type}.

(** What calling a mapper gives: a plain value, an awaitable (given by
    what awaiting it yields), or an exception raised by the call itself. *)
Inductive Mapped :=
  | Plain (v : V)
  | Awaitable (awaited : outcome V)
  | Raises (e : exc).

(** A mapper, called as [mapper(value)] (index [None]) or as
    [mapper(value, index)]. *)
Definition Mapper := V → option nat → Mapped.

(** [def noop(x): return x]; it takes one argument only. *)
Definition noop : Mapper :=
  λ x index,
    match index with
    | None => Plain x
    | Some _ =>
        Raises (Exc TypeError
                  "noop() takes 1 positional argument but 2 were given" None)
    end.

(** A [Map] stream: [self._index] and [self._asend_mapper]. *)
Record State := { _index : option nat; _asend_mapper : Mapper }.

(** [Map.__init__(asend_mapper, araise_mapper, with_index=...)]; the
    [araise_mapper] matters here only for the assertion, so it is given by
    whether there is one.  The assertion is a truth test: the mappers of
    this model are functions, which are true; a callable object whose
    truth value is false is outside it. *)
Definition __init__ (asend_mapper : option Mapper) (araise_mapper : bool)
  (with_index : bool) : outcome State :=
  if bool_decide (is_Some asend_mapper) || araise_mapper then
    Returned {| _index := if with_index then Some 0 else None;
                _asend_mapper := default noop asend_mapper |}
  else
    Raised (Exc (UserError "AssertionError") "" None).

(** Calling the mapper: the call itself may raise. *)
Definition call (m : Mapped) : Eff.M State Mapped :=
  match m with
  | Raises e => Eff.raise e
  | _ => Eff.ret m
  end.

(** [await attempt_await(awaitable)]: an awaitable is awaited, anything
    else is the result. *)
Definition attempt_await (m : Mapped) : Eff.M State V :=
  match m with
  | Plain v => Eff.ret v
  | Awaitable awaited => λ s, (awaited, s)
  | Raises e => Eff.raise e
  end.

(** [Map._asend_impl] *)
Definition _asend_impl (value : V) : Eff.M State V :=
  (s <- Eff.get ;;
   awaitable <-
     match _index s with
     | None => call (_asend_mapper s value None)
     | Some index =>
         awaitable <- call (_asend_mapper s value (Some index)) ;;
         Eff.modify (λ s, {| _index := Some (index + 1);
                             _asend_mapper := _asend_mapper s |}) ;;;
         Eff.ret awaitable
     end ;;
   attempt_await awaitable)%eff.

(** The base class sending [values] through [_asend_impl] one after the
    other; the result lists what each call gave. *)
Fixpoint feed (values : list V) (s : State) : list (outcome V) * State :=
  match values with
  | [] => ([], s)
  | v :: values' =>
      let '(r, s') := _asend_impl v s in
      let '(rs, s'') := feed values' s' in
      (r :: rs, s'')
  end.

(** What a mapper that does not raise gives once awaited. *)
Definition awaited (m : Mapped) : outcome V :=
  match m with
  | Plain v => Returned v
  | Awaitable r => r
  | Raises e => Raised e
  end.

(** The call of the mapper itself never raises. *)
Definition never_raises (mapper : Mapper) : Prop :=
  ∀ v index e, mapper v index ≠ Raises e.

End Map.

Arguments Mapped V : clear implicits.
Arguments Mapper V : clear implicits.
Arguments State V : clear implicits.

End MapOp.

(** ** Max.Stream.__close__ *)

Module MaxClose.

Import Max.

(** The calls [Max.Stream] makes on its base class [SingleStream]. *)
Inductive Call :=
  | SuperAsend (value : PyVal)
  | SuperAclose.

(** [SingleStream] is not part of this module: how its [__asend__] and
    [__aclose__] end is a parameter. *)
Section Close.

Variable super_asend_outcome : PyVal → outcome unit.
Variable super_aclose_outcome : outcome unit.

(** [Max.Stream.__close__]:
    [await super().__asend__(self._max); await super().__aclose__()] *)
Definition __close__ : Eff.M (Stream * list Call) unit :=
  ((λ s, (super_asend_outcome (_max s.1),
          (s.1, s.2 ++ [SuperAsend (_max s.1)]))) ;;;
   (λ s, (super_aclose_outcome, (s.1, s.2 ++ [SuperAclose]))))%eff.

End Close.

End MaxClose.

(** * Properties *)

(** ** The monad *)

Lemma bind_returned {S A B} (m : Eff.M S A) (k : A → Eff.M S B) s a s' :
  m s = (Returned a, s') → Eff.bind m k s = k a s'.
Proof. intros H. unfold Eff.bind. by rewrite H. Qed.

Lemma bind_raised {S A B} (m : Eff.M S A) (k : A → Eff.M S B) s e s' :
  m s = (Raised e, s') → Eff.bind m k s = (Raised e, s').
Proof. intros H. unfold Eff.bind. by rewrite H. Qed.

(** ** Max.Stream *)

Section MaxProperties.

Import Max.

Lemma py_gt_None_TypeError value :
  unordered_with_None value → is_TypeError (py_gt value PyNone).
Proof.
  unfold unordered_with_None, py_gt. intros ->.
  destruct value; simpl; eexists; split; reflexivity.
Qed.

(** Instances of [int], [float] and [str] are not ordered against [None]. *)
Lemma int_float_str_unordered_with_None z q s :
  unordered_with_None (PyInt z) ∧ unordered_with_None (PyFloat q)
  ∧ unordered_with_None (PyStr s).
Proof. repeat split. Qed.

Example py_gt_orders_numbers_and_strings :
  py_gt (PyInt 3) (PyInt 2) = Returned true
  ∧ py_gt (PyInt 1) (PyFloat (3 # 2)) = Returned false
  ∧ py_gt (PyFloat (3 # 2)) (PyInt 1) = Returned true
  ∧ py_gt (PyStr "b") (PyStr "a") = Returned true
  ∧ is_TypeError (py_gt (PyInt 1) (PyStr "a"))
  ∧ is_TypeError (py_gt PyNone PyNone).
Proof. repeat split; try reflexivity; eexists; split; reflexivity. Qed.

(** An instance of a class whose [__gt__] accepts [None] is stored. *)
Example max_stream_accepts_ordered_object :
  __asend__ (PyObj (Some true)) __init__
  = (Returned tt, {| _max := PyObj (Some true) |}).
Proof. reflexivity. Qed.

Lemma asend_on_None value self :
  unordered_with_None value → _max self = PyNone →
  is_TypeError (__asend__ value self).1 ∧ (__asend__ value self).2 = self.
Proof.
  intros Hv Hm. destruct (py_gt_None_TypeError value Hv) as (e & He & Hc).
  unfold __asend__, Eff.bind. rewrite Hm, He. simpl.
  split; [by exists e | done].
Qed.

Lemma deliveries_on_None values : ∀ self,
  Forall unordered_with_None values → _max self = PyNone →
  Forall is_TypeError (deliveries values self).1
  ∧ (deliveries values self).2 = self.
Proof.
  induction values as [|v vs IH]; intros self Hall Hm; simpl.
  - by split.
  - inversion Hall as [|? ? Hv Hvs]; subst.
    destruct (asend_on_None v self Hv Hm) as [Hr Hs].
    destruct (__asend__ v self) as [r self'] eqn:E. simpl in Hr, Hs. subst self'.
    destruct (IH self Hvs Hm) as [Hrs Hs'].
    destruct (deliveries vs self) as [rs self''] eqn:E'. simpl in *.
    split; [by constructor | done].
Qed.

(** C9. [Max.Stream] starts with [_max = None], so the first [__asend__]
    evaluates [value > None]: for a first value whose type does not order
    its instances against [None] the delivery raises [TypeError] and leaves
    [_max] as it was; and as long as the values sent are of such types
    ([int], [float] and [str] are), every delivery raises and the stored
    maximum stays [None]. *)
Theorem max_stream_first_send_raises_TypeError
  (value : PyVal) (more : list PyVal) :
  unordered_with_None value →
  Forall unordered_with_None more →
  _max __init__ = PyNone
  ∧ is_TypeError (py_gt value (_max __init__))
  ∧ is_TypeError (__asend__ value __init__).1
  ∧ (__asend__ value __init__).2 = __init__
  ∧ Forall is_TypeError (deliveries (value :: more) __init__).1
  ∧ _max (deliveries (value :: more) __init__).2 = PyNone
  ∧ (∀ z q s, unordered_with_None (PyInt z) ∧ unordered_with_None (PyFloat q)
              ∧ unordered_with_None (PyStr s)).
Proof.
  intros Hv Hmore.
  destruct (asend_on_None value __init__ Hv eq_refl) as [H1 H2].
  destruct (deliveries_on_None (value :: more) __init__) as [H3 H4];
    [by constructor | done |].
  repeat split; try done.
  - by apply py_gt_None_TypeError.
  - by rewrite H4.
Qed.

(** The theorem at [3], followed by [1.5] and ["a"]. *)
Lemma max_stream_first_send_witness :
  is_TypeError (__asend__ (PyInt 3) __init__).1
  ∧ _max (deliveries [PyInt 3; PyFloat (3 # 2); PyStr "a"] __init__).2 = PyNone.
Proof.
  assert (Hv : unordered_with_None (PyInt 3)) by reflexivity.
  assert (Hmore : Forall unordered_with_None [PyFloat (3 # 2); PyStr "a"])
    by (repeat constructor).
  destruct (max_stream_first_send_raises_TypeError _ _ Hv Hmore)
    as (_ & _ & H & _ & _ & H' & _).
  exact (conj H H').
Defined.

End MaxProperties.

(** ** Unit._worker *)

Section UnitProperties.

Import UnitSource.

Context {K : Type}.

Implicit Types (value : Value K) (o : Observer K) (namespace : UUID).

(** Unfolds one run of the worker down to the observer's own answers. *)
Ltac worker_cases value o :=
  unfold run_worker, _worker, delivery, observer_asend, observer_araise,
    observer_aclose, invoke, Eff.bind, Eff.get, Eff.ret; simpl;
  destruct value as [? | [? | ?]]; simpl;
  repeat match goal with
    | |- context [asend o ?v ?n ?c] =>
        destruct (asend o v n c) as [[[] | ?] []]; simpl
    | |- context [araise o ?e ?n ?c] =>
        destruct (araise o e n c) as [[[] | ?] []]; simpl
    | |- context [keep_alive o] => destruct (keep_alive o) eqn:?; simpl
    | |- context [aclose o ?c] => destruct (aclose o c) as [? ?] eqn:?; simpl
    end.

(** What the worker calls: the single delivery, then [aclose] exactly when
    the delivery returned and left the observer neither closed nor to be
    kept alive. *)
Lemma worker_calls value o namespace :
  let after := delivery value namespace {| observer := o; calls := [] |} in
  calls (run_worker value o namespace).2
  = calls after.2
    ++ (if returned after.1
           && negb (closed (observer after.2) || keep_alive o)
        then [CallAclose] else []).
Proof. worker_cases value o; reflexivity. Qed.

Lemma delivery_calls value o namespace :
  calls (delivery value namespace {| observer := o; calls := [] |}).2
  = match value with
    | Plain v | Future (Returned v) => [CallAsend v None]
    | Future (Raised ex) => [CallAraise ex (Some namespace)]
    end.
Proof.
  unfold delivery, observer_asend, observer_araise, invoke; simpl.
  destruct value as [v | [v | ex]]; simpl;
    [ destruct (asend o v None (closed o))
    | destruct (asend o v None (closed o))
    | destruct (araise o ex (Some namespace) (closed o)) ]; reflexivity.
Qed.

(** C8. The worker of [Unit] delivers its single value and then closes the
    observer only if the observer is then neither closed nor [keep_alive]:
    an observer whose [keep_alive] is true is never closed by the worker,
    and [aclose] is awaited exactly when the delivery returned, the
    observer is not closed after it and [keep_alive] is false. *)
Theorem unit_worker_respects_keep_alive value o namespace :
  let after := delivery value namespace {| observer := o; calls := [] |} in
  let run := run_worker value o namespace in
  (keep_alive o = true → CallAclose ∉ calls run.2)
  ∧ (CallAclose ∈ calls run.2 ↔
       after.1 = Returned tt
       ∧ closed (observer after.2) = false
       ∧ keep_alive o = false)
  ∧ (keep_alive o = true → closed (observer run.2) = closed (observer after.2)).
Proof.
  cbv zeta.
  pose proof (worker_calls value o namespace) as Hcalls.
  pose proof (delivery_calls value o namespace) as Hdel.
  cbv zeta in Hcalls. rewrite Hdel in Hcalls.
  assert (Hnot : ∀ l : list (Call K),
            l = match value with
                | Plain v | Future (Returned v) => [CallAsend v None]
                | Future (Raised ex) => [CallAraise ex (Some namespace)]
                end → CallAclose ∉ l).
  { intros l ->. destruct value as [v | [v | ex]];
      intros Hin; apply list_elem_of_singleton in Hin; discriminate. }
  split; [| split].
  - intros Hk. rewrite Hcalls, Hk, orb_true_r, andb_false_r, app_nil_r.
    by apply Hnot.
  - rewrite Hcalls, elem_of_app.
    destruct (delivery value namespace {| observer := o; calls := [] |})
      as [[[] | e] w] eqn:E; simpl;
      destruct (closed (observer w)), (keep_alive o); simpl;
      split;
      try (intros [Hin | Hin];
           [ by eapply Hnot in Hin
           | first [ by apply not_elem_of_nil in Hin | done ] ]);
      try (intros (? & ? & ?); discriminate).
    intros _. right. apply list_elem_of_singleton. done.
  - intros Hk. clear Hcalls Hdel Hnot. revert Hk.
    worker_cases value o; intros; try discriminate; reflexivity.
Qed.

(** C10. In both of its success branches the worker awaits
    [observer.asend(value)] with no namespace argument, whereas its failure
    branch awaits [observer.araise(ex, namespace)] with the namespace of the
    [Unit]: no [asend] made by a worker ever carries that namespace. *)
Theorem unit_worker_asend_drops_namespace value o namespace :
  let run := run_worker value o namespace in
  (∀ v, value = Plain v ∨ value = Future (Returned v) →
        head (calls run.2) = Some (CallAsend v None))
  ∧ (∀ ex, value = Future (Raised ex) →
           head (calls run.2) = Some (CallAraise ex (Some namespace)))
  ∧ (∀ v ns, CallAsend v ns ∈ calls run.2 → ns = None).
Proof.
  cbv zeta.
  pose proof (worker_calls value o namespace) as Hcalls.
  pose proof (delivery_calls value o namespace) as Hdel.
  cbv zeta in Hcalls. rewrite Hdel in Hcalls. rewrite Hcalls.
  split; [| split].
  - intros v [-> | ->]; reflexivity.
  - intros ex ->; reflexivity.
  - intros v ns Hin. apply elem_of_app in Hin as [Hin | Hin].
    + destruct value as [v' | [v' | ex]];
        apply list_elem_of_singleton in Hin; congruence.
    + destruct (_ && _); [apply list_elem_of_singleton in Hin; discriminate|].
      by apply not_elem_of_nil in Hin.
Qed.

Example unit_worker_keeps_alive :
  let run := run_worker (Plain 7%Z) (accepting true) 1%positive in
  calls run.2 = [CallAsend 7%Z None] ∧ closed (observer run.2) = false.
Proof. split; reflexivity. Qed.

Example unit_worker_auto_closes :
  let run := run_worker (Plain 7%Z) (accepting false) 1%positive in
  calls run.2 = [CallAsend 7%Z None; CallAclose]
  ∧ closed (observer run.2) = true.
Proof. split; reflexivity. Qed.

Example unit_worker_failed_future :
  let ex := Exc (UserError "Boom") "boom" None in
  calls (run_worker (Future (Raised ex)) (accepting true) 5%positive).2
  = [CallAraise ex (Some 5%positive)].
Proof. reflexivity. Qed.

End UnitProperties.

(** ** pipe *)

Section PipeProperties.

Import PipeOp.

(** Induction along [_previous]. *)
Lemma pipe_chain_ind (P : pipe → Prop) :
  (∀ o t, P (Pipe o t None)) →
  (∀ o t prev, P prev → P (Pipe o t (Some prev))) →
  ∀ self, P self.
Proof.
  intros Hbase Hstep. fix IH 1. intros [o t [prev|]].
  - apply Hstep, IH.
  - apply Hbase.
Qed.

Section Outcomes.

Variables enter_outcome exit_outcome : Ref → Ref → outcome unit.

Lemma aenter_all_attached self : ∀ log,
  never_fails enter_outcome →
  __aenter__ enter_outcome self log
  = (Returned (_transformer self), log ++ attaches (observations self)).
Proof.
  intros log Hok. revert log.
  induction self as [o t | o t prev IH] using pipe_chain_ind; intros log;
    simpl; unfold Eff.bind, observe_aenter; simpl; rewrite Hok; simpl.
  - reflexivity.
  - rewrite IH. simpl. by rewrite <- app_assoc.
Qed.

Lemma aexit_all_disposed self : ∀ log,
  never_fails exit_outcome →
  __aexit__ exit_outcome self log
  = (Returned tt, log ++ disposes (rev (observations self))).
Proof.
  intros log Hok. revert log.
  induction self as [o t | o t prev IH] using pipe_chain_ind; intros log;
    simpl; unfold Eff.bind, observe_aexit; simpl.
  - by rewrite Hok.
  - rewrite IH. simpl. rewrite Hok. unfold disposes.
    by rewrite map_app, app_assoc.
Qed.

(** The log a node is entered or exited with is only ever extended. *)
Lemma aenter_frame self : ∀ log,
  __aenter__ enter_outcome self log
  = ((__aenter__ enter_outcome self []).1,
     log ++ (__aenter__ enter_outcome self []).2).
Proof.
  induction self as [o t | o t prev IH] using pipe_chain_ind; intros log;
    simpl; unfold Eff.bind, observe_aenter; simpl;
    destruct (enter_outcome o t) as [[]|e]; simpl; try reflexivity.
  rewrite (IH (log ++ [Attach o t])), (IH [Attach o t]).
  destruct (__aenter__ enter_outcome prev []) as [[r|e] log']; simpl;
    by rewrite <- app_assoc.
Qed.

Lemma aexit_frame self : ∀ log,
  __aexit__ exit_outcome self log
  = ((__aexit__ exit_outcome self []).1,
     log ++ (__aexit__ exit_outcome self []).2).
Proof.
  induction self as [o t | o t prev IH] using pipe_chain_ind; intros log;
    simpl; unfold Eff.bind, observe_aexit; simpl; try reflexivity.
  rewrite (IH log).
  destruct (__aexit__ exit_outcome prev []) as [[[]|e] log']; simpl;
    [by rewrite <- app_assoc | reflexivity].
Qed.

(** C6. Entering a pipe node first enters the node's own observation,
    attaching its transformer to its observable, and then, if that
    returned, enters [_previous] when there is one; exiting is the mirror:
    [_previous] is exited first and then, if that returned, the node's own
    observation.  When no observation fails, a chain is attached newest
    stage first and disposed of in the reverse order. *)
Theorem pipe_enter_own_then_previous_exit_mirrored
  (self : pipe) (log : list Event) :
  let own_attach := Attach (observable self) (_transformer self) in
  let own_dispose := Dispose (observable self) (_transformer self) in
  (__aenter__ enter_outcome self log).2
  = log ++ own_attach ::
      (if returned (enter_outcome (observable self) (_transformer self))
       then match _previous self with
            | Some prev => (__aenter__ enter_outcome prev []).2
            | None => []
            end
       else [])
  ∧ (__aexit__ exit_outcome self log).2
    = log ++ match _previous self with
             | Some prev =>
                 (__aexit__ exit_outcome prev []).2
                 ++ (if returned (__aexit__ exit_outcome prev []).1
                     then [own_dispose] else [])
             | None => [own_dispose]
             end
  ∧ (never_fails enter_outcome → never_fails exit_outcome →
     __aenter__ enter_outcome self log
     = (Returned (_transformer self), log ++ attaches (observations self))
     ∧ __aexit__ exit_outcome self log
       = (Returned tt, log ++ disposes (rev (observations self)))).
Proof.
  cbv zeta. split; [| split].
  - rewrite aenter_frame. simpl. f_equal.
    destruct self as [o t [prev|]]; simpl;
      unfold Eff.bind, observe_aenter; simpl;
      destruct (enter_outcome o t) as [[]|e]; simpl; try reflexivity.
    rewrite aenter_frame.
    by destruct (__aenter__ enter_outcome prev []) as [[r|e] log'].
  - rewrite aexit_frame. simpl. f_equal.
    destruct self as [o t [prev|]]; simpl;
      unfold Eff.bind, observe_aexit; simpl; try reflexivity.
    destruct (__aexit__ exit_outcome prev []) as [[[]|e] log']; simpl;
      [reflexivity | by rewrite app_nil_r].
  - intros Henter Hexit.
    by rewrite aenter_all_attached, aexit_all_disposed.
Qed.

Lemma chain_observations more : ∀ self,
  rev (observations (fold_left __or__ more self))
  = rev (observations self) ++ links (_transformer self) more.
Proof.
  induction more as [|t more IH]; intros self; simpl.
  - by rewrite app_nil_r.
  - rewrite IH. destruct self as [o t' prev]; simpl.
    by rewrite <- app_assoc.
Qed.

(** C7, as the code has it. For a chain source -> T1 -> T2 built from pipe
    nodes, exiting the outermost pipe disposes of T1's observation of the
    source first and, if that returned, of T2's observation of T1 after it:
    upstream observations are torn down before the downstream ones.  When
    no disposal fails this is the order along a chain of any length. *)
Theorem pipe_exit_disposes_upstream_first (source t1 t2 : Ref) :
  let log := (__aexit__ exit_outcome (chain source t1 [t2]) []).2 in
  log = Dispose source t1
          :: (if returned (exit_outcome source t1)
              then [Dispose t1 t2] else [])
  ∧ (returned (exit_outcome source t1) = true →
     upstream_first source t1 t2 log)
  ∧ (never_fails exit_outcome → ∀ more,
     (__aexit__ exit_outcome (chain source t1 (t2 :: more)) []).2
     = disposes (links source (t1 :: t2 :: more))).
Proof.
  cbv zeta.
  assert (Hlog : (__aexit__ exit_outcome (chain source t1 [t2]) []).2
                 = Dispose source t1
                     :: (if returned (exit_outcome source t1)
                         then [Dispose t1 t2] else [])).
  { simpl. unfold Eff.bind, observe_aexit. simpl.
    by destruct (exit_outcome source t1) as [[]|e]. }
  split; [exact Hlog | split].
  - intros Hok. rewrite Hlog, Hok. exists 0, 1.
    split; [reflexivity | split; [reflexivity | lia]].
  - intros Hok more. rewrite aexit_all_disposed by done.
    unfold chain. by rewrite chain_observations.
Qed.

End Outcomes.

Example pipe_chain_enter_exit_logs :
  __aenter__ succeed (chain "source" "T1" ["T2"; "T3"]) []
  = (Returned "T3",
     [Attach "T2" "T3"; Attach "T1" "T2"; Attach "source" "T1"])
  ∧ __aexit__ succeed (chain "source" "T1" ["T2"; "T3"]) []
    = (Returned tt,
       [Dispose "source" "T1"; Dispose "T1" "T2"; Dispose "T2" "T3"]).
Proof. split; reflexivity. Qed.

(** When the disposal of the first observation raises, the exit stops
    there: no later stage is disposed of. *)
Example pipe_exit_stops_at_first_failure :
  let e := Exc (UserError "Boom") "boom" None in
  __aexit__ (λ o _, if String.eqb o "source" then Raised e else Returned tt)
    (chain "source" "T1" ["T2"; "T3"]) []
  = (Raised e, [Dispose "source" "T1"]).
Proof. reflexivity. Qed.

(** C7, as the specification has it, fails on the chain
    source -> T1 -> T2: the observation of T1 by T2 is not disposed of
    before the observation of the source by T1. *)
Lemma pipe_exit_not_downstream_first :
  ¬ downstream_first "source" "T1" "T2"
      (__aexit__ succeed (chain "source" "T1" ["T2"]) []).2.
Proof.
  intros (i & j & Hi & Hj & Hlt).
  destruct i as [|[|i]]; destruct j as [|[|j]];
    simpl in Hi, Hj; try discriminate; lia.
Qed.

End PipeProperties.

(** ** MultiStream *)

Section MultiStreamProperties.

Import MultiStream.

Context {K : Type}.

Implicit Types (s : State K) (m : ObsId * ObserverProtocol K)
  (l : list (ObsId * ObserverProtocol K)) (namespace : Namespace).

Lemma same_hub_refl s : same_hub s s.
Proof. by split. Qed.

Lemma same_hub_trans s1 s2 s3 :
  same_hub s1 s2 → same_hub s2 s3 → same_hub s1 s3.
Proof. intros [? ?] [? ?]. split; congruence. Qed.

(** *** [wait] *)

Section Deliveries.

(** The coroutines of one fan-out: what each ends with, the call it logs
    and what it does to the member. *)
Variable deliver : ObsId * ObserverProtocol K → Eff.M (State K) unit.
Variable result : ObsId * ObserverProtocol K → outcome unit.
Variable call : ObsId * ObserverProtocol K → Call K.
Variable update : ObsId * ObserverProtocol K →
                  gmap ObsId (ObserverProtocol K) →
                  gmap ObsId (ObserverProtocol K).
Hypothesis deliver_spec : ∀ m s,
  deliver m s = (result m, with_observers (update m) (with_call (call m) s)).

Lemma run_futures_deliveries l : ∀ s,
  let r := run_futures (map (λ m, (m.1, deliver m)) l) s in
  r.1 = Returned (map (future_of result) l)
  ∧ calls r.2 = calls s ++ map call l
  ∧ exception_handler r.2 = exception_handler s
  ∧ _disposables r.2 = _disposables s
  ∧ same_hub s r.2
  ∧ _observers r.2 = foldl (λ obs m, update m obs) (_observers s) l.
Proof.
  induction l as [|m l IH]; intros s; simpl.
  - rewrite app_nil_r. repeat split.
  - unfold Eff.bind, as_future. simpl. rewrite deliver_spec.
    specialize (IH (with_observers (update m) (with_call (call m) s))).
    simpl in IH.
    destruct (run_futures (map (λ m0, (m0.1, deliver m0)) l)
                (with_observers (update m) (with_call (call m) s)))
      as [r s'] eqn:E.
    simpl in IH. destruct IH as (-> & Hc & He & Hd & Hh & Ho). simpl.
    rewrite Hc, He, Hd, Ho. simpl. rewrite <- app_assoc.
    repeat split; apply Hh.
Qed.

(** Every open member is delivered to, none is skipped because of what a
    sibling did, and [wait] itself raises only when it is given nothing. *)
Lemma wait_deliveries l s :
  let r := wait (map (λ m, (m.1, deliver m)) l) s in
  (l ≠ [] → r.1 = Returned (map (future_of result) l))
  ∧ (l = [] → r = (Raised empty_wait, s))
  ∧ calls r.2 = calls s ++ map call l
  ∧ exception_handler r.2 = exception_handler s
  ∧ _disposables r.2 = _disposables s
  ∧ same_hub s r.2
  ∧ _observers r.2 = foldl (λ obs m, update m obs) (_observers s) l.
Proof.
  destruct l as [|m l].
  - simpl. rewrite app_nil_r. repeat split; done.
  - pose proof (run_futures_deliveries (m :: l) s) as H.
    cbv zeta in *. change (wait (map (λ m0, (m0.1, deliver m0)) (m :: l)))
      with (run_futures (map (λ m0, (m0.1, deliver m0)) (m :: l))).
    destruct H as (H1 & H2 & H3 & H4 & H5 & H6).
    repeat split; try done. apply H5. apply H5.
Qed.

End Deliveries.

(** *** The loop over [done] *)

Section Done.

Variable body : Fut → Eff.M (State K) unit.
Variable report : ObsId * exc → Report.
Hypothesis body_spec : ∀ fut,
  body fut
  = (exc <- fut_exception fut ;;
     match exc with
     | Some exc =>
         if negb (is_ObserverClosedError exc)
         then call_exception_handler (report (fut_obv fut, exc))
         else Eff.ret tt
     | None => Eff.ret tt
     end)%eff.

(** The loop reports the failures of the futures it meets and stops at the
    first cancelled one, whose [exception()] raises. *)
Lemma for_each_done done : ∀ s,
  let r := Eff.for_each done body s in
  r.1 = (if existsb cancelled done then Raised cancelled_error
         else Returned tt)
  ∧ exception_handler r.2
    = exception_handler s
      ++ map report (reportable (failures_of (uncancelled done)))
  ∧ calls r.2 = calls s
  ∧ _disposables r.2 = _disposables s
  ∧ same_hub s r.2
  ∧ _observers r.2 = _observers s.
Proof.
  induction done as [|fut done IH]; intros s; simpl.
  - rewrite app_nil_r. repeat split.
  - rewrite body_spec.
    unfold Eff.bind, fut_exception, cancelled, failures_of, Eff.ret,
      Eff.raise, call_exception_handler, Eff.modify.
    destruct (fut_ended fut) as [|e|] eqn:E; simpl; rewrite ?E.
    + apply IH.
    + unfold reportable. simpl.
      destruct (is_ObserverClosedError e) eqn:Hcls; simpl.
      * apply IH.
      * specialize (IH (with_report (report (fut_obv fut, e)) s)).
        cbv zeta in IH. destruct IH as (H1 & H2 & H3 & H4 & H5 & H6).
        unfold failures_of, cancelled in H1, H2. rewrite H2. simpl.
        rewrite <- app_assoc.
        repeat split; try done; apply H5.
    + rewrite app_nil_r. repeat split.
Qed.

End Done.

Lemma cancelled_futures (result : ObsId * ObserverProtocol K → outcome unit) l :
  existsb cancelled (map (future_of result) l)
  = existsb (λ m, ends_cancelled (result m)) l.
Proof.
  induction l as [|m l IH]; simpl; [done|]. rewrite IH. f_equal.
  unfold cancelled, future_of, ended. simpl.
  destruct (result m) as [[]|e]; simpl; [done|].
  by destruct (is_CancelledError e).
Qed.

(** The failures the loop gets to are failures of member deliveries... *)
Lemma failures_of_uncancelled
  (result : ObsId * ObserverProtocol K → outcome unit) l :
  failures_of (uncancelled (map (future_of result) l))
  ⊆ omap (λ m, pair m.1 <$> raised (result m)) l.
Proof.
  induction l as [|m l IH]; simpl; [done|].
  unfold cancelled, future_of, ended. simpl.
  destruct (result m) as [[]|e]; simpl.
  - exact IH.
  - destruct (is_CancelledError e); simpl.
    + apply list_subseteq_nil.
    + intros f Hf. apply elem_of_cons in Hf as [-> | Hf].
      * apply list_elem_of_here.
      * apply list_elem_of_further. by apply IH.
Qed.

(** ... and all of them, when no delivery ends cancelled. *)
Lemma failures_of_futures
  (result : ObsId * ObserverProtocol K → outcome unit) l :
  existsb (λ m, ends_cancelled (result m)) l = false →
  failures_of (uncancelled (map (future_of result) l))
  = omap (λ m, pair m.1 <$> raised (result m)) l.
Proof.
  induction l as [|m l IH]; simpl; [done|].
  intros H. apply orb_false_iff in H as [Hm Hl].
  unfold cancelled, future_of, ended. simpl.
  destruct (result m) as [[]|e]; simpl in *.
  - by apply IH.
  - rewrite Hm. simpl. f_equal. by apply IH.
Qed.

Lemma reportable_iff (fs : list (ObsId * exc)) f :
  f ∈ reportable fs ↔ f ∈ fs ∧ is_ObserverClosedError f.2 = false.
Proof.
  unfold reportable. rewrite !list_elem_of_In, filter_In.
  by rewrite negb_true_iff.
Qed.

Lemma reportable_subseteq (fs fs' : list (ObsId * exc)) :
  fs ⊆ fs' → reportable fs ⊆ reportable fs'.
Proof.
  intros Hsub f Hf. apply reportable_iff in Hf as [Hf Hc].
  apply reportable_iff. split; [by apply Hsub | done].
Qed.

Lemma enqueue_clearing_spec s :
  let r := enqueue_clearing s in
  r.1 = Returned tt
  ∧ exception_handler r.2 = exception_handler s
  ∧ calls r.2 = calls s
  ∧ _disposables r.2 = enqueued (_disposables s)
  ∧ same_hub s r.2
  ∧ _observers r.2 = _observers s.
Proof.
  unfold enqueue_clearing, enqueued, Eff.bind, Eff.get. simpl.
  destruct (_disposables s) eqn:E; simpl; rewrite ?E; repeat split.
Qed.

(** *** The fan-out as a whole *)

Section FanOut.

Variable deliver : ObsId * ObserverProtocol K → Eff.M (State K) unit.
Variable result : ObsId * ObserverProtocol K → outcome unit.
Variable call : ObsId * ObserverProtocol K → Call K.
Variable update : ObsId * ObserverProtocol K →
                  gmap ObsId (ObserverProtocol K) →
                  gmap ObsId (ObserverProtocol K).
Hypothesis deliver_spec : ∀ m s,
  deliver m s = (result m, with_observers (update m) (with_call (call m) s)).
Variable body : Fut → Eff.M (State K) unit.
Variable report : ObsId * exc → Report.
Hypothesis body_spec : ∀ fut,
  body fut
  = (exc <- fut_exception fut ;;
     match exc with
     | Some exc =>
         if negb (is_ObserverClosedError exc)
         then call_exception_handler (report (fut_obv fut, exc))
         else Eff.ret tt
     | None => Eff.ret tt
     end)%eff.

(** [done, pending = await wait(...)], the loop over [done] and the
    enqueueing of the sweep. *)
Lemma fan_out_spec l s :
  let r := (done <- wait (map (λ m, (m.1, deliver m)) l) ;;
            Eff.for_each done body ;;;
            enqueue_clearing)%eff s in
  let stopped := existsb (λ m, ends_cancelled (result m)) l in
  let failures := omap (λ m, pair m.1 <$> raised (result m)) l in
  (l = [] → r = (Raised empty_wait, s))
  ∧ (l ≠ [] → r.1 = if stopped then Raised cancelled_error else Returned tt)
  ∧ calls r.2 = calls s ++ map call l
  ∧ (∃ fs, exception_handler r.2 = exception_handler s ++ map report fs
           ∧ fs ⊆ reportable failures
           ∧ (stopped = false → fs = reportable failures))
  ∧ same_hub s r.2
  ∧ (l ≠ [] → _observers r.2 = foldl (λ obs m, update m obs) (_observers s) l)
  ∧ (l ≠ [] → _disposables r.2 = if stopped then _disposables s
                                 else enqueued (_disposables s)).
Proof.
  cbv zeta.
  pose proof (wait_deliveries deliver result call update deliver_spec l s)
    as (Hok & Hempty & Hcalls & Hhandler & Hdisp & Hhub & Hobs).
  destruct l as [|m l'] eqn:El.
  - rewrite (bind_raised _ _ _ _ _ (Hempty eq_refl)). simpl.
    rewrite !app_nil_r. split; [done|]. split; [done|]. split; [done|].
    split; [exists []; by rewrite app_nil_r |].
    split; [apply same_hub_refl | done].
  - rewrite <- El in *.
    destruct (wait (map (λ m0, (m0.1, deliver m0)) l) s) as [r1 s1] eqn:E1.
    simpl in Hok, Hcalls, Hhandler, Hdisp, Hhub, Hobs.
    assert (l ≠ []) as Hne by (rewrite El; discriminate).
    rewrite (Hok Hne) in E1.
    rewrite (bind_returned _ _ _ _ _ E1).
    pose proof (for_each_done body report body_spec
                  (map (future_of result) l) s1)
      as (H1 & H2 & H3 & H4 & H5 & H6).
    rewrite cancelled_futures in H1.
    assert (Hfs : reportable (failures_of (uncancelled (map (future_of result) l)))
                  ⊆ reportable (omap (λ m, pair m.1 <$> raised (result m)) l))
      by apply reportable_subseteq, failures_of_uncancelled.
    destruct (Eff.for_each (map (future_of result) l) body s1)
      as [r2 s2] eqn:E2.
    simpl in H1, H2, H3, H4, H5, H6.
    destruct (existsb (λ m, ends_cancelled (result m)) l) eqn:Hstop; subst r2.
    + rewrite (bind_raised _ _ _ _ _ E2). simpl.
      split; [intros; congruence|]. split; [done|]. split; [congruence|].
      split; [eexists; split; [rewrite H2, Hhandler; reflexivity|];
              split; [exact Hfs | discriminate] |].
      split; [eauto using same_hub_trans|].
      split; intros _; congruence.
    + rewrite (bind_returned _ _ _ _ _ E2).
      pose proof (enqueue_clearing_spec s2) as (H7 & H8 & H9 & H10 & H11 & H12).
      destruct (enqueue_clearing s2) as [r3 s3] eqn:E3.
      simpl in H7, H8, H9, H10, H11, H12. subst r3. simpl.
      split; [intros; congruence|]. split; [done|]. split; [congruence|].
      split; [eexists; split; [rewrite H8, H2, Hhandler; reflexivity|];
              split; [exact Hfs |
                      intros _; by rewrite failures_of_futures] |].
      split; [eauto using same_hub_trans|].
      split; intros _; congruence.
Qed.

End FanOut.

Lemma asend_spec s (value : K) namespace :
  let r := _asend value namespace s in
  let stopped := asend_cancelled value namespace (open_members s) in
  let failures := asend_failures value namespace (open_members s) in
  (no_observers s = true → r = (Returned tt, s))
  ∧ (no_observers s = false →
     (open_members s = [] → r = (Raised empty_wait, s))
     ∧ (open_members s ≠ [] →
        r.1 = if stopped then Raised cancelled_error else Returned tt)
     ∧ calls r.2
       = calls s ++ map (λ m, CallAsend m.1 value namespace) (open_members s)
     ∧ (∃ fs, exception_handler r.2
              = exception_handler s ++ map (asend_report (name s)) fs
              ∧ fs ⊆ reportable failures
              ∧ (stopped = false → fs = reportable failures))
     ∧ same_hub s r.2
     ∧ (open_members s ≠ [] →
        _observers r.2
        = foldl (λ obs m,
                   alter (set_closed (asend m.2 value namespace).2) m.1 obs)
                (_observers s) (open_members s))
     ∧ (open_members s ≠ [] →
        _disposables r.2 = if stopped then _disposables s
                           else enqueued (_disposables s))).
Proof.
  cbv zeta.
  change (_asend value namespace s)
    with ((if no_observers s then Eff.ret tt else
           done <- wait (map (λ m, (m.1, obv_asend value namespace m))
                             (open_members s)) ;;
           Eff.for_each done (asend_done (name s)) ;;;
           enqueue_clearing)%eff s).
  destruct (no_observers s) eqn:Hno; split; try discriminate; intros _.
  - reflexivity.
  - pose proof (fan_out_spec
             (obv_asend value namespace)
             (λ m, (asend m.2 value namespace).1)
             (λ m, CallAsend m.1 value namespace)
             (λ m, alter (set_closed (asend m.2 value namespace).2) m.1))
      as Hfan.
    specialize (Hfan ltac:(intros m s0; unfold obv_asend;
                           by destruct (asend m.2 value namespace))).
    specialize (Hfan (asend_done (name s)) (asend_report (name s))
                     ltac:(intros fut; reflexivity)
                     (open_members s) s).
    exact Hfan.
Qed.

Lemma athrow_spec s (main_exc : exc) namespace :
  let r := _athrow main_exc namespace s in
  let stopped := athrow_cancelled main_exc namespace (open_members s) in
  let failures := athrow_failures main_exc namespace (open_members s) in
  (no_observers s = true → r = (Returned false, s))
  ∧ (no_observers s = false →
     (open_members s = [] → r = (Raised empty_wait, s))
     ∧ (open_members s ≠ [] →
        r.1 = if stopped then Raised cancelled_error else Returned false)
     ∧ calls r.2
       = calls s
         ++ map (λ m, CallAthrow m.1 main_exc namespace) (open_members s)
     ∧ (∃ fs, exception_handler r.2
              = exception_handler s
                ++ map (athrow_report (name s) main_exc) fs
              ∧ fs ⊆ reportable failures
              ∧ (stopped = false → fs = reportable failures))
     ∧ same_hub s r.2
     ∧ (open_members s ≠ [] →
        _observers r.2
        = foldl (λ obs m,
                   alter (set_closed (athrow m.2 main_exc namespace).2) m.1 obs)
                (_observers s) (open_members s))
     ∧ (open_members s ≠ [] →
        _disposables r.2 = if stopped then _disposables s
                           else enqueued (_disposables s))).
Proof.
  cbv zeta.
  change (_athrow main_exc namespace s)
    with (((if no_observers s then Eff.ret tt else
            done <- wait (map (λ m, (m.1, obv_athrow main_exc namespace m))
                              (open_members s)) ;;
            Eff.for_each done (athrow_done (name s) main_exc) ;;;
            enqueue_clearing) ;;;
           Eff.ret false)%eff s).
  destruct (no_observers s) eqn:Hno; split; try discriminate; intros _.
  - reflexivity.
  - pose proof (fan_out_spec
             (obv_athrow main_exc namespace)
             (λ m, (athrow m.2 main_exc namespace).1)
             (λ m, CallAthrow m.1 main_exc namespace)
             (λ m, alter (set_closed (athrow m.2 main_exc namespace).2) m.1))
      as Hfan.
    specialize (Hfan ltac:(intros m s0; unfold obv_athrow;
                           by destruct (athrow m.2 main_exc namespace))).
    specialize (Hfan (athrow_done (name s) main_exc)
                     (athrow_report (name s) main_exc)
                     ltac:(intros fut; reflexivity)
                     (open_members s) s).
    cbv zeta in Hfan. unfold athrow_cancelled, athrow_failures.
    match type of Hfan with
    | context [Eff.bind ?w ?k s] => destruct (Eff.bind w k s) as [r1 s1] eqn:E
    end.
    simpl in Hfan. destruct Hfan as (H1 & H2 & H3 & H4 & H5 & H6 & H7).
    destruct r1 as [[]|e].
    + rewrite (bind_returned _ _ _ _ _ E). simpl.
      split; [intros Hnil; specialize (H1 Hnil); discriminate|].
      split; [| done].
      intros Hne. specialize (H2 Hne). revert H2.
      destruct (existsb _ (open_members s)); congruence.
    + rewrite (bind_raised _ _ _ _ _ E). simpl.
      split; [intros Hnil; specialize (H1 Hnil); by injection H1 as -> ->|].
      split; [| done].
      intros Hne. specialize (H2 Hne). revert H2.
      destruct (existsb _ (open_members s)); congruence.
Qed.

Lemma no_observers_empty s : no_observers s = true ↔ _observers s = ∅.
Proof.
  unfold no_observers, members. rewrite <- map_to_list_empty_iff.
  destruct (map_to_list (_observers s)); split; done.
Qed.

Lemma some_observers s : _observers s ≠ ∅ ↔ no_observers s = false.
Proof.
  rewrite <- no_observers_empty. by destruct (no_observers s).
Qed.


(** C3. With no observer attached, [_asend] returns at once: nothing is
    raised, no member is called, nothing is reported, and the state of the
    hub is what it was. *)
Theorem asend_without_observers_drops_value s (value : K) namespace :
  _observers s = ∅ →
  _asend value namespace s = (Returned tt, s)
  ∧ calls (_asend value namespace s).2 = calls s
  ∧ exception_handler (_asend value namespace s).2 = exception_handler s
  ∧ _disposables (_asend value namespace s).2 = _disposables s.
Proof.
  intros Hempty. apply no_observers_empty in Hempty.
  destruct (asend_spec s value namespace) as [Hdrop _].
  cbv zeta in Hdrop. rewrite (Hdrop Hempty). by simpl.
Qed.

(** A namespace is never its own predecessor. *)
Lemma not_chained_to_itself (n : Namespace) : ¬ chained_to n n.
Proof.
  unfold chained_to. intros H.
  destruct n as [t r a [p|]]; simpl in H; [| discriminate].
  injection H as H. apply (f_equal depth) in H. simpl in H. lia.
Qed.

(** C4, as the code has it. A fan-out of [_asend] over a non-empty
    observer set awaits [asend] on every open member with the value and the
    very namespace the caller passed in, the same for every member: the hub
    builds no namespace of its own, and what it hands over is not a
    namespace chained to the caller's. *)
Theorem asend_hands_members_the_callers_namespace
  s (value : K) namespace :
  _observers s ≠ ∅ →
  let sent := _asend value namespace s in
  calls sent.2
  = calls s ++ map (λ m, CallAsend m.1 value namespace) (open_members s)
  ∧ (∀ m, m ∈ open_members s →
          CallAsend m.1 value namespace ∈ calls sent.2)
  ∧ (∀ obv value' namespace',
       CallAsend obv value' namespace'
         ∈ map (λ m, CallAsend m.1 value namespace) (open_members s) →
       namespace' = namespace ∧ ¬ chained_to namespace namespace').
Proof.
  intros Hno. apply some_observers in Hno. cbv zeta.
  destruct (asend_spec s value namespace) as [_ Hsent].
  destruct (Hsent Hno) as (_ & _ & Hcalls & _).
  split; [exact Hcalls | split].
  - intros m Hm. rewrite Hcalls. apply elem_of_app. right.
    apply list_elem_of_fmap. by exists m.
  - intros obv value' namespace' Hin.
    apply list_elem_of_fmap in Hin as (m & Heq & _).
    injection Heq as _ _ ->. split; [done | apply not_chained_to_itself].
Qed.

(** [_athrow] never sets the hub's own [closed] flag and never returns
    [True]; it returns [False] when no observer is attached and when it
    delivered to at least one member and no delivery ended cancelled. *)
Lemma athrow_never_closes s (main_exc : exc) namespace :
  let thrown := _athrow main_exc namespace s in
  stream_closed thrown.2 = stream_closed s
  ∧ thrown.1 ≠ Returned true
  ∧ (_observers s = ∅ → thrown = (Returned false, s))
  ∧ (open_members s ≠ [] →
     athrow_cancelled main_exc namespace (open_members s) = false →
     thrown.1 = Returned false)
  ∧ (no_observers s = false → open_members s = [] →
     thrown = (Raised empty_wait, s)).
Proof.
  cbv zeta. destruct (athrow_spec s main_exc namespace) as [Hnone Hsome].
  destruct (no_observers s) eqn:Hno.
  - specialize (Hnone eq_refl). cbv zeta in Hnone. rewrite Hnone. simpl.
    repeat split; try done.
  - destruct (Hsome eq_refl) as (H1 & H2 & _ & _ & H5 & _).
    split; [apply H5|]. split; [| split; [| split]].
    + destruct (open_members s) as [|m l] eqn:Hopen.
      * by rewrite (H1 eq_refl).
      * rewrite H2 by discriminate.
        by destruct (athrow_cancelled _ _ _).
    + intros Hempty. apply no_observers_empty in Hempty. congruence.
    + intros Hne Hc. rewrite (H2 Hne), Hc. reflexivity.
    + intros _. exact H1.
Qed.

(** *** Disposal *)

Lemma observe_dispose_spec m s :
  let r := observe_dispose m s in
  r.1 = (dispose m.2).2
  ∧ calls r.2 = calls s ++ [CallDispose m.1]
  ∧ exception_handler r.2 = exception_handler s
  ∧ _disposables r.2 = _disposables s
  ∧ same_hub s r.2.
Proof.
  unfold observe_dispose, Eff.bind, Eff.modify, __dispose__, Eff.ret. simpl.
  destruct (dispose m.2).1; simpl; [destruct (_ !! _); simpl |];
    repeat split.
Qed.

(** Every disposal handed to [gather] is attempted, and the first failure
    is the one raised. *)
Lemma gather_dispose l : ∀ s,
  let r := gather (map observe_dispose l) s in
  r.1 = match first_dispose_failure l with
        | Some e => Raised (gathered e)
        | None => Returned tt
        end
  ∧ calls r.2 = calls s ++ map (λ m, CallDispose m.1) l
  ∧ exception_handler r.2 = exception_handler s
  ∧ _disposables r.2 = _disposables s
  ∧ same_hub s r.2.
Proof.
  induction l as [|m l IH]; intros s; simpl.
  - rewrite app_nil_r. repeat split.
  - pose proof (observe_dispose_spec m s) as (H1 & H2 & H3 & H4 & H5).
    destruct (observe_dispose m s) as [r1 s1] eqn:E1. simpl in *.
    pose proof (IH s1) as (G1 & G2 & G3 & G4 & G5).
    destruct (gather (map observe_dispose l) s1) as [r2 s2] eqn:E2.
    simpl in *. subst r1. unfold first_dispose_failure in *. simpl.
    rewrite G2, H2, <- app_assoc. simpl.
    split; [| repeat split; try congruence;
              destruct G5, H5; congruence].
    destruct (dispose m.2).2 as [[]|e]; simpl; [exact G1 | reflexivity].
Qed.

Lemma gathered_cancelled e :
  is_CancelledError (gathered e) = is_CancelledError e.
Proof. unfold gathered. by destruct (is_CancelledError e) eqn:E. Qed.

Lemma gathered_other e : is_CancelledError e = false → gathered e = e.
Proof. unfold gathered. by intros ->. Qed.

Lemma gathered_is_cancelled e :
  is_CancelledError e = true → gathered e = cancelled_error.
Proof. unfold gathered. by intros ->. Qed.

(** The sweep: every closed member is disposed of; the first failure is
    reported, unless it is a cancellation, which is raised again; the
    reference to the task is reset on the way out of the [try]. *)
Lemma clear_closed_observers_spec s :
  let r := _clear_closed_observers s in
  r.1 = sweep_outcome s
  ∧ calls r.2 = calls s ++ map (λ m, CallDispose m.1) (closed_members s)
  ∧ exception_handler r.2 = exception_handler s ++ sweep_reports s
  ∧ same_hub s r.2
  ∧ _disposables r.2 = match closed_members s with
                       | [] => _disposables s
                       | _ :: _ => None
                       end.
Proof.
  cbv zeta. unfold sweep_outcome, sweep_reports.
  change (_clear_closed_observers s)
    with (match closed_members s with
          | [] => Eff.ret tt
          | _ :: _ =>
              Eff.try_finally
                (Eff.try_except
                   (gather (map observe_dispose (closed_members s)))
                   (λ exc,
                      if is_CancelledError exc then Eff.raise exc
                      else call_exception_handler
                             (sweep_report (name s) exc)))
                (Eff.modify (with_disposables None))
          end s).
  destruct (closed_members s) as [|m l] eqn:El.
  - simpl. rewrite !app_nil_r. repeat split.
  - pose proof (gather_dispose (m :: l) s) as (G1 & G2 & G3 & G4 & G5).
    unfold Eff.try_finally, Eff.try_except, call_exception_handler,
      Eff.modify, Eff.raise.
    destruct (gather (map observe_dispose (m :: l)) s) as [r1 s1] eqn:E.
    simpl in G1, G2, G3, G4, G5.
    destruct (first_dispose_failure (m :: l)) as [e|]; subst r1.
    + rewrite gathered_cancelled.
      destruct (is_CancelledError e) eqn:Hc; simpl.
      * rewrite (gathered_is_cancelled e Hc), app_nil_r.
        repeat split; try done; apply G5.
      * rewrite (gathered_other e Hc), G3.
        repeat split; try done; apply G5.
    + simpl. rewrite app_nil_r. repeat split; try done; apply G5.
Qed.

(** With no closed member the sweep returns before its [try]. *)
Lemma clear_closed_observers_idle s :
  closed_members s = [] → _clear_closed_observers s = (Returned tt, s).
Proof.
  intros Hnone.
  change (_clear_closed_observers s)
    with (match closed_members s with
          | [] => Eff.ret tt
          | _ :: _ =>
              Eff.try_finally
                (Eff.try_except
                   (gather (map observe_dispose (closed_members s)))
                   (λ exc,
                      if is_CancelledError exc then Eff.raise exc
                      else call_exception_handler
                             (sweep_report (name s) exc)))
                (Eff.modify (with_disposables None))
          end s).
  by rewrite Hnone.
Qed.

Lemma await_task_spec (task : Task) s :
  let r := await_task task s in
  r.1 = match task with
        | Pending => sweep_outcome s
        | Finished => Returned tt
        end
  ∧ calls r.2
    = calls s
      ++ match task with
         | Pending => map (λ m, CallDispose m.1) (closed_members s)
         | Finished => []
         end
  ∧ same_hub s r.2.
Proof.
  destruct task; simpl.
  - pose proof (clear_closed_observers_spec s) as (H1 & H2 & _ & H3 & _).
    unfold run_task, Eff.bind, Eff.get, Eff.modify, Eff.ret.
    destruct (_clear_closed_observers s) as [r1 s1] eqn:E. simpl in *.
    subst r1. destruct (sweep_outcome s) as [[]|e]; simpl;
      [destruct (_disposables s1); simpl |]; repeat split; try done;
      apply H3.
  - rewrite app_nil_r. repeat split.
Qed.

Lemma after_sweep_awaited s : after_sweep s = (awaited_sweep s).2.
Proof. unfold after_sweep, awaited_sweep. by destruct (_disposables s). Qed.

(** The sweep that [_aclose] awaits raises when it is still pending and
    ends cancelled, and only then. *)
Lemma awaited_sweep_spec s :
  (awaited_sweep s).1 = match _disposables s with
                        | Some Pending => sweep_outcome s
                        | _ => Returned tt
                        end
  ∧ calls (awaited_sweep s).2
    = calls s
      ++ match _disposables s with
         | Some Pending => map (λ m, CallDispose m.1) (closed_members s)
         | _ => []
         end.
Proof.
  unfold awaited_sweep. destruct (_disposables s) as [task|].
  - pose proof (await_task_spec task s) as (H1 & H2 & _).
    cbv zeta in *. rewrite H1, H2. by destruct task.
  - simpl. by rewrite app_nil_r.
Qed.

Lemma sweep_outcome_cases s :
  sweep_outcome s = Returned tt ∨ sweep_outcome s = Raised cancelled_error.
Proof.
  unfold sweep_outcome. destruct (first_dispose_failure _) as [e|]; [| by left].
  destruct (is_CancelledError e); [by right | by left].
Qed.

Lemma aclose_unfold s :
  _aclose s
  = match awaited_sweep s with
    | (Returned _, s') => gather (map observe_dispose (members s')) s'
    | (Raised e, s') => (Raised e, s')
    end.
Proof.
  change (_aclose s)
    with ((match _disposables s with
           | Some task => await_task task
           | None => Eff.ret tt
           end ;;;
           s' <- Eff.get ;;
           gather (map observe_dispose (members s')))%eff s).
  unfold awaited_sweep, Eff.bind at 1.
  destruct (_disposables s) as [task|] eqn:Ed.
  - by destruct (await_task task s) as [[[]|e] s1].
  - reflexivity.
Qed.

(** C5, as the code has it. [_aclose] first awaits the sweep held in
    [_disposables], if any.  A sweep that is still pending and ends
    cancelled raises [CancelledError] at that [await]: [_aclose] raises
    there and disposes of nothing more.  Otherwise it hands the disposal
    of every member still in the set to [gather]: each one is attempted,
    also after an earlier one failed; when disposals fail, the exception
    the caller gets is the one [gather] sets for the first failure (a new
    [CancelledError] for a disposal that ended cancelled), one exception
    and nothing more. *)
Theorem aclose_disposes_every_member_raises_first_failure s :
  let awaited := awaited_sweep s in
  let swept := after_sweep s in
  let closing := _aclose s in
  swept = awaited.2
  ∧ awaited.1 = match _disposables s with
                | Some Pending => sweep_outcome s
                | _ => Returned tt
                end
  ∧ calls swept
    = calls s
      ++ match _disposables s with
         | Some Pending => map (λ m, CallDispose m.1) (closed_members s)
         | _ => []
         end
  ∧ (∀ e, awaited.1 = Raised e →
          e = cancelled_error ∧ closing = (Raised e, swept))
  ∧ (awaited.1 = Returned tt →
     calls closing.2
     = calls swept ++ map (λ m, CallDispose m.1) (members swept)
     ∧ closing.1 = match head (dispose_failures (members swept)) with
                   | Some e => Raised (gathered e)
                   | None => Returned tt
                   end
     ∧ (∀ e, closing.1 = Raised e →
             (∃ e', e' ∈ dispose_failures (members swept) ∧ e = gathered e')
             ∧ surfaced_errors closing.1 = carried_errors e)).
Proof.
  cbv zeta. rewrite aclose_unfold, after_sweep_awaited.
  destruct (awaited_sweep_spec s) as [Hres Hcalls].
  split; [done|]. split; [exact Hres|]. split; [exact Hcalls|].
  destruct (awaited_sweep s) as [r1 s1] eqn:E. simpl in *.
  split.
  - intros e ->. split; [| done].
    destruct (_disposables s) as [[|]|]; try discriminate.
    destruct (sweep_outcome_cases s) as [H | H]; congruence.
  - intros ->.
    pose proof (gather_dispose (members s1) s1) as (G1 & G2 & _).
    split; [exact G2 | split; [exact G1 |]].
    intros e He. rewrite He. split; [| reflexivity].
    rewrite G1 in He. unfold first_dispose_failure, dispose_failures in *.
    destruct (omap _ _) as [|e' fs]; simpl in He; [discriminate|].
    injection He as <-. exists e'. split; [apply list_elem_of_here | done].
Qed.

End MultiStreamProperties.

(** ** MultiStream on the sample hubs *)

Section MultiStreamSamples.

Import MultiStream.



(** C2, on the code. The only member of the hub has closed and the sweep
    has not removed it yet: the observer set is not empty, the tuple handed
    to [asyncio.wait] is, and [_athrow] raises [ValueError] instead of
    returning [False].  ([_asend] does the same.) *)
Theorem athrow_raises_when_every_member_is_closed :
  _observers stale_hub ≠ ∅
  ∧ open_members stale_hub = []
  ∧ _athrow boom root stale_hub = (Raised empty_wait, stale_hub)
  ∧ _asend 5%Z root stale_hub = (Raised empty_wait, stale_hub).
Proof.
  assert (Hno : no_observers stale_hub = false) by (vm_compute; reflexivity).
  assert (Hopen : open_members stale_hub = []) by (vm_compute; reflexivity).
  split; [by apply some_observers|]. split; [exact Hopen|]. split.
  - by apply athrow_never_closes.
  - destruct (asend_spec stale_hub 5%Z root) as [_ H].
    destruct (H Hno) as (Hraise & _). by apply Hraise.
Qed.

(** An error relayed through a hub with no observer: the call returns
    [False] and the hub is as it was, open. *)
Example athrow_without_observers :
  _athrow boom root (__init__ (K:=Z) "hub") = (Returned false, __init__ "hub")
  ∧ stream_closed (__init__ (K:=Z) "hub") = false.
Proof. split; reflexivity. Qed.

(** A send through the mixed hub, then the sweep: the member that was
    closed and the one that closed during the delivery are detached, the
    one that raised and the one that accepted stay. *)
Example sweep_after_send :
  let r := (_asend 5%Z root ;;; run_task)%eff mixed_hub in
  r.1 = Returned tt
  ∧ map fst (members r.2) = [3%positive; 2%positive]
  ∧ _disposables r.2 = None.
Proof. vm_compute. repeat split. Qed.

(** The hot-drop theorem on a fresh hub. *)
Lemma asend_without_observers_witness :
  _asend 5%Z root (__init__ "hub") = (Returned tt, __init__ "hub").
Proof.
  apply (asend_without_observers_drops_value (__init__ "hub") 5%Z root).
  reflexivity.
Defined.

(** The namespace theorem on the mixed hub: the only namespace any member
    is handed is the caller's. *)
Lemma asend_callers_namespace_witness :
  _observers mixed_hub ≠ ∅
  ∧ calls (_asend 5%Z root mixed_hub).2
    = [CallAsend 3%positive 5%Z root; CallAsend 4%positive 5%Z root;
       CallAsend 2%positive 5%Z root].
Proof.
  assert (Hno : _observers mixed_hub ≠ ∅)
    by (apply some_observers; vm_compute; reflexivity).
  destruct (asend_hands_members_the_callers_namespace mixed_hub 5%Z root Hno)
    as (Hcalls & _).
  split; [exact Hno|]. rewrite Hcalls. vm_compute. reflexivity.
Defined.

(** C4, as the specification has it, fails on the mixed hub: the members
    are not handed namespaces chained to the caller's. *)
Lemma asend_builds_no_namespace_per_member :
  ¬ fresh_namespace_per_member root (calls (_asend 5%Z root mixed_hub).2).
Proof.
  intros Hfresh.
  destruct (Hfresh (CallAsend 3%positive 5%Z root))
    as (obv & value & namespace' & Heq & Hchained).
  - assert (calls (_asend 5%Z root mixed_hub).2
            = [CallAsend 3%positive 5%Z root; CallAsend 4%positive 5%Z root;
               CallAsend 2%positive 5%Z root]) as ->
      by (vm_compute; reflexivity).
    apply list_elem_of_here.
  - injection Heq as _ _ <-. by apply not_chained_to_itself in Hchained.
Qed.

(** C5, as the specification has it, fails on the hub whose two members
    both fail to be disposed of: both disposals are attempted, and the
    caller gets one of the two exceptions, which does not hold the other. *)
Lemma aclose_surfaces_a_single_failure :
  calls (_aclose failing_hub).2 = [CallDispose 2%positive; CallDispose 1%positive]
  ∧ dispose_failures (members (after_sweep failing_hub)) = [bang; boom]
  ∧ (_aclose failing_hub).1 = Raised bang
  ∧ ¬ aggregates (dispose_failures (members (after_sweep failing_hub)))
        (_aclose failing_hub).1.
Proof.
  assert (Hf : dispose_failures (members (after_sweep failing_hub))
               = [bang; boom]) by (vm_compute; reflexivity).
  assert (Hr : (_aclose failing_hub).1 = Raised bang)
    by (vm_compute; reflexivity).
  split; [vm_compute; reflexivity|]. split; [exact Hf|]. split; [exact Hr|].
  rewrite Hf, Hr. intros Hagg.
  specialize (Hagg boom). simpl in Hagg.
  assert (boom ∈ [bang; boom]) as Hin
    by (apply list_elem_of_further, list_elem_of_here).
  apply Hagg in Hin. apply list_elem_of_singleton in Hin. discriminate.
Qed.

(** Closing a hub whose pending sweep ends cancelled: [_aclose] raises at
    the [await] of the sweep, the closed member has been detached and the
    open one is still attached. *)
Example aclose_raises_when_the_sweep_is_cancelled :
  _aclose interrupted_hub
  = (Raised cancelled_error, (awaited_sweep interrupted_hub).2)
  ∧ calls (_aclose interrupted_hub).2 = [CallDispose 1%positive]
  ∧ map fst (members (_aclose interrupted_hub).2) = [3%positive]
  ∧ _disposables (_aclose interrupted_hub).2 = None.
Proof. vm_compute. repeat split. Qed.

End MultiStreamSamples.

(** ** MultiStream: membership, sweeps and runs of sends *)

Section MultiStreamRunProperties.

Import MultiStream MultiStreamRuns.

Context {K : Type}.

Implicit Types (s : State K) (m : ObsId * ObserverProtocol K)
  (l : list (ObsId * ObserverProtocol K)) (namespace : Namespace)
  (observers : gmap ObsId (ObserverProtocol K)).

(** *** What a fan-out does to the observer set and to the sweep *)

Lemma open_members_observers s : open_members s ≠ [] → no_observers s = false.
Proof. unfold no_observers, open_members. by destruct (members s). Qed.

Lemma asend_state s (value : K) namespace :
  open_members s ≠ [] →
  let r := _asend value namespace s in
  _observers r.2 = delivered value namespace (open_members s) (_observers s)
  ∧ _disposables r.2
    = if asend_cancelled value namespace (open_members s)
      then _disposables s else enqueued (_disposables s).
Proof.
  intros Hopen. cbv zeta.
  destruct (asend_spec s value namespace) as [_ H].
  destruct (H (open_members_observers s Hopen))
    as (_ & _ & _ & _ & _ & Ho & Hd).
  split; [exact (Ho Hopen) | exact (Hd Hopen)].
Qed.

Lemma athrow_state s (main_exc : exc) namespace :
  open_members s ≠ [] →
  let r := _athrow main_exc namespace s in
  _observers r.2
  = foldl (λ obs m,
             alter (set_closed (athrow m.2 main_exc namespace).2) m.1 obs)
          (_observers s) (open_members s)
  ∧ _disposables r.2
    = if athrow_cancelled main_exc namespace (open_members s)
      then _disposables s else enqueued (_disposables s).
Proof.
  intros Hopen. cbv zeta.
  destruct (athrow_spec s main_exc namespace) as [_ H].
  destruct (H (open_members_observers s Hopen))
    as (_ & _ & _ & _ & _ & Ho & Hd).
  split; [exact (Ho Hopen) | exact (Hd Hopen)].
Qed.

(** A fan-out that delivers to no one leaves the hub as it was. *)
Lemma fan_out_to_no_one s (value : K) (main_exc : exc) namespace :
  open_members s = [] →
  (_asend value namespace s).2 = s ∧ (_athrow main_exc namespace s).2 = s.
Proof.
  intros Hopen.
  destruct (asend_spec s value namespace) as [S1 S2].
  destruct (athrow_spec s main_exc namespace) as [T1 T2].
  cbv zeta in *. destruct (no_observers s) eqn:Hno.
  - by rewrite (S1 eq_refl), (T1 eq_refl).
  - destruct (S2 eq_refl) as (S3 & _). destruct (T2 eq_refl) as (T3 & _).
    by rewrite (S3 Hopen), (T3 Hopen).
Qed.

Lemma dom_alters (f : ObsId * ObserverProtocol K →
                      ObserverProtocol K → ObserverProtocol K) l :
  ∀ observers,
  dom (foldl (λ obs m, alter (f m) m.1 obs) observers l) = dom observers.
Proof.
  induction l as [|m l IH]; intros observers; simpl; [done|].
  rewrite IH. apply leibniz_equiv, dom_alter.
Qed.

(** X1. While the hub holds no pending sweep, neither [_asend] nor
    [_athrow] attaches or detaches a member: whatever the deliveries do,
    closed members and cancelled deliveries included, the identities in
    the observer set after the call are those before it.  (A sweep that is
    pending would be run by the loop during the [await] and detach the
    closed members.) *)
Theorem fan_out_keeps_membership s (value : K) (main_exc : exc) namespace :
  _disposables s ≠ Some Pending →
  dom (_observers (_asend value namespace s).2) = dom (_observers s)
  ∧ dom (_observers (_athrow main_exc namespace s).2) = dom (_observers s).
Proof.
  intros _. destruct (open_members s) as [|m l] eqn:Hopen.
  - destruct (fan_out_to_no_one s value main_exc namespace Hopen)
      as [-> ->]. done.
  - assert (open_members s ≠ []) as Hne by (rewrite Hopen; discriminate).
    destruct (asend_state s value namespace Hne) as [-> _].
    destruct (athrow_state s main_exc namespace Hne) as [-> _].
    unfold delivered.
    rewrite (dom_alters (λ m, set_closed (asend m.2 value namespace).2)).
    by rewrite (dom_alters (λ m, set_closed (athrow m.2 main_exc namespace).2)).
Qed.

(** X2. Attaching and detaching are a round trip on the observer set:
    detaching an observer that was just attached gives back the hub as it
    was, detaching an observer that is not attached changes nothing (the
    [KeyError] is suppressed), and attaching or detaching the same observer
    twice is attaching or detaching it once. *)
Theorem observe_dispose_round_trip s (observer : ObsId * ObserverProtocol K) :
  _observers s !! observer.1 = None →
  (__observe__ observer ;;; __dispose__ observer.1)%eff s = (Returned tt, s)
  ∧ __dispose__ observer.1 s = (Returned tt, s)
  ∧ _observers (__observe__ observer s).2 !! observer.1 = Some observer.2
  ∧ (__observe__ observer ;;; __observe__ observer)%eff s
    = __observe__ observer s
  ∧ (__observe__ observer ;;; __dispose__ observer.1 ;;;
     __dispose__ observer.1)%eff s = (Returned tt, s).
Proof.
  intros Hfresh. destruct observer as [obv o]. simpl in *.
  assert (Hback : with_observers (delete obv)
                    (with_observers (insert obv o) s) = s).
  { destruct s as [c obs d n h cs]. unfold with_observers. simpl in *.
    f_equal. by apply delete_insert_id. }
  assert (Hround : (__observe__ (obv, o) ;;; __dispose__ obv)%eff s
                   = (Returned tt, s)).
  { unfold Eff.bind, __observe__, __dispose__, Eff.modify. simpl.
    rewrite lookup_insert_eq. by rewrite Hback. }
  assert (Habsent : __dispose__ obv s = (Returned tt, s))
    by (unfold __dispose__; by rewrite Hfresh).
  split; [exact Hround|]. split; [exact Habsent|]. split; [| split].
  - unfold __observe__, Eff.modify. simpl. apply lookup_insert_eq.
  - unfold Eff.bind, __observe__, Eff.modify. simpl. f_equal.
    destruct s as [c obs d n h cs]. unfold with_observers. simpl.
    f_equal. apply insert_insert_eq.
  - unfold Eff.bind at 1.
    destruct (__observe__ (obv, o) s) as [[[]|e] s1] eqn:E;
      [| unfold __observe__, Eff.modify in E; discriminate].
    unfold Eff.bind in Hround. rewrite E in Hround.
    unfold Eff.bind. rewrite Hround. exact Habsent.
Qed.

(** X3. On a hub that holds no pending sweep, a fan-out that delivers to
    at least one member, none of whose deliveries ends cancelled, leaves a
    sweep task in [_disposables]: it creates one when none is held and
    keeps the finished one that is.  A fan-out that delivers to no one (no
    observer, or closed ones only), or that is raised out of its loop over
    [done] by a cancelled delivery, leaves [_disposables] as it was. *)
Theorem fan_out_enqueues_one_sweep s (value : K) (main_exc : exc) namespace :
  _disposables s ≠ Some Pending →
  let left (stopped : bool) :=
    match open_members s with
    | [] => _disposables s
    | _ :: _ => if stopped then _disposables s
                else match _disposables s with
                     | None => Some Pending
                     | Some task => Some task
                     end
    end in
  _disposables (_asend value namespace s).2
  = left (asend_cancelled value namespace (open_members s))
  ∧ _disposables (_athrow main_exc namespace s).2
    = left (athrow_cancelled main_exc namespace (open_members s)).
Proof.
  intros _. cbv zeta. destruct (open_members s) as [|m l] eqn:Hopen.
  - destruct (fan_out_to_no_one s value main_exc namespace Hopen)
      as [-> ->]. done.
  - assert (open_members s ≠ []) as Hne by (rewrite Hopen; discriminate).
    destruct (asend_state s value namespace Hne) as [_ Hs].
    destruct (athrow_state s main_exc namespace Hne) as [_ Ht].
    rewrite Hopen in Hs, Ht. by rewrite Hs, Ht.
Qed.

(** *** Disposals and the observer set *)

Lemma observe_dispose_observers m s :
  _observers (observe_dispose m s).2
  = if (dispose m.2).1 then delete m.1 (_observers s) else _observers s.
Proof.
  unfold observe_dispose, Eff.bind, Eff.modify, __dispose__, Eff.ret. simpl.
  destruct (dispose m.2).1; simpl; [| done].
  destruct (_observers s !! m.1) eqn:E; simpl; [done|].
  by rewrite delete_id.
Qed.

Lemma gather_observers l : ∀ s,
  _observers (gather (map observe_dispose l) s).2
  = detached l (_observers s).
Proof.
  induction l as [|m l IH]; intros s; simpl; [done|].
  pose proof (observe_dispose_observers m s) as H.
  destruct (observe_dispose m s) as [r1 s1] eqn:E1. simpl in H.
  specialize (IH s1).
  destruct (gather (map observe_dispose l) s1) as [r2 s2] eqn:E2.
  simpl in *. by rewrite IH, H.
Qed.

(** Disposals only take members away. *)
Lemma detached_lookup_Some l : ∀ observers obv o,
  detached l observers !! obv = Some o → observers !! obv = Some o.
Proof.
  induction l as [|m l IH]; intros observers obv o; simpl; [done|].
  intros H. apply IH in H. destruct (dispose m.2).1; [| done].
  apply lookup_delete_Some in H. tauto.
Qed.

(** A member whose disposal reaches [__dispose__] is gone, the members
    whose disposal is not asked for are untouched. *)
Lemma detached_lookup l : ∀ observers obv,
  (∀ m, m ∈ l → (dispose m.2).1 = true) →
  detached l observers !! obv
  = if decide (obv ∈ l.*1) then None else observers !! obv.
Proof.
  induction l as [|m l IH]; intros observers obv Hall.
  - simpl. reflexivity.
  - change (detached (m :: l) observers)
      with (detached l (if (dispose m.2).1 then delete m.1 observers
                        else observers)).
    rewrite (Hall m) by apply list_elem_of_here.
    rewrite IH by (intros m' Hm'; apply Hall; by apply list_elem_of_further).
    rewrite fmap_cons.
    destruct (decide (obv ∈ l.*1)) as [Hin | Hin];
      destruct (decide (obv ∈ m.1 :: l.*1)) as [Hin' | Hin']; try done.
    + exfalso. apply Hin'. by apply list_elem_of_further.
    + apply lookup_delete_None. left.
      apply elem_of_cons in Hin' as [-> | ?]; [done | contradiction].
    + rewrite lookup_delete_ne; [done|]. intros Heq. apply Hin'.
      rewrite <- Heq. apply list_elem_of_here.
Qed.

Lemma clear_closed_observers_state s :
  _observers (_clear_closed_observers s).2
  = detached (closed_members s) (_observers s).
Proof.
  change (_clear_closed_observers s)
    with (match closed_members s with
          | [] => Eff.ret tt
          | _ :: _ =>
              Eff.try_finally
                (Eff.try_except
                   (gather (map observe_dispose (closed_members s)))
                   (λ exc,
                      if is_CancelledError exc then Eff.raise exc
                      else call_exception_handler
                             (sweep_report (name s) exc)))
                (Eff.modify (with_disposables None))
          end s).
  destruct (closed_members s) as [|m l] eqn:El; [done|].
  pose proof (gather_observers (m :: l) s) as Hobs.
  unfold Eff.try_finally, Eff.try_except, call_exception_handler,
    Eff.modify, Eff.raise.
  destruct (gather (map observe_dispose (m :: l)) s) as [[[]|e] s1] eqn:E;
    [done|].
  by destruct (is_CancelledError e).
Qed.

Lemma awaited_sweep_observers s :
  _observers (awaited_sweep s).2
  = match _disposables s with
    | Some Pending => detached (closed_members s) (_observers s)
    | _ => _observers s
    end.
Proof.
  unfold awaited_sweep. destruct (_disposables s) as [[|]|]; simpl; [| done..].
  pose proof (clear_closed_observers_state s) as H.
  unfold run_task, Eff.bind, Eff.get, Eff.modify, Eff.ret.
  destruct (_clear_closed_observers s) as [[[]|e] s1] eqn:E; simpl in *;
    [| done].
  by destruct (_disposables s1).
Qed.

Lemma closed_members_spec s m :
  m ∈ closed_members s
  ↔ _observers s !! m.1 = Some m.2 ∧ closed m.2 = true.
Proof.
  unfold closed_members.
  rewrite list_elem_of_In, filter_In, <- list_elem_of_In.
  unfold members. by rewrite elem_of_map_to_list'.
Qed.

(** When the disposal of every closed member reaches [__dispose__], what
    is left of the set are the open members. *)
Lemma detached_closed_lookup s :
  (∀ obv o, _observers s !! obv = Some o → closed o = true →
            (dispose o).1 = true) →
  ∀ obv, detached (closed_members s) (_observers s) !! obv
         = match _observers s !! obv with
           | Some o => if closed o then None else Some o
           | None => None
           end.
Proof.
  intros Hhook obv. rewrite detached_lookup.
  - case_decide as Hin.
    + apply list_elem_of_fmap in Hin as (m & -> & Hm).
      apply closed_members_spec in Hm as [-> ->]. reflexivity.
    + destruct (_observers s !! obv) as [o|] eqn:E; [| done].
      destruct (closed o) eqn:Hc; [| done].
      exfalso. apply Hin. apply list_elem_of_fmap.
      exists (obv, o). split; [done|]. by apply closed_members_spec.
  - intros m Hm. apply closed_members_spec in Hm as [Hl Hc]. by eapply Hhook.
Qed.

Lemma first_dispose_failure_elem l e :
  first_dispose_failure l = Some e →
  ∃ m, m ∈ l ∧ (dispose m.2).2 = Raised e.
Proof.
  unfold first_dispose_failure. induction l as [|m l IH]; simpl; [done|].
  destruct (dispose m.2).2 as [[]|e'] eqn:E; simpl.
  - intros H. destruct (IH H) as (m' & Hm' & Hd).
    exists m'. split; [by apply list_elem_of_further | done].
  - intros [= <-]. exists m. split; [apply list_elem_of_here | done].
Qed.

(** X4. The sweep raises [CancelledError], and nothing else, exactly when
    the first disposal to fail ended cancelled; any other first failure is
    reported to the loop's exception handler and swallowed, so the handler
    gets at most one report, and none from a sweep that raises.  Whether it
    raises or not, when the disposal of every closed member reaches
    [__dispose__] the sweep detaches exactly the closed members:
    afterwards the set holds the members that were open, unchanged, and no
    closed one; and [_disposables] is reset if there was anything to
    sweep. *)
Theorem sweep_detaches_exactly_the_closed s :
  (∀ obv o, _observers s !! obv = Some o → closed o = true →
            (dispose o).1 = true) →
  let r := _clear_closed_observers s in
  r.1 = sweep_outcome s
  ∧ (r.1 = Returned tt ∨ r.1 = Raised cancelled_error)
  ∧ ((∀ m, m ∈ closed_members s → ends_cancelled (dispose m.2).2 = false) →
     r.1 = Returned tt)
  ∧ exception_handler r.2 = exception_handler s ++ sweep_reports s
  ∧ (List.length (sweep_reports s) ≤ 1)%nat
  ∧ (r.1 = Raised cancelled_error → sweep_reports s = [])
  ∧ (∀ obv, _observers r.2 !! obv
            = match _observers s !! obv with
              | Some o => if closed o then None else Some o
              | None => None
              end)
  ∧ ((∃ obv o, _observers s !! obv = Some o ∧ closed o = true) →
     _disposables r.2 = None).
Proof.
  intros Hhook. cbv zeta.
  pose proof (clear_closed_observers_spec s) as (Hret & _ & Hrep & _ & Hdisp).
  pose proof (clear_closed_observers_state s) as Hobs.
  cbv zeta in *. rewrite Hret.
  split; [done|]. split; [apply sweep_outcome_cases|].
  split; [| split; [exact Hrep | split; [| split; [| split]]]].
  - intros Hnone. unfold sweep_outcome.
    destruct (first_dispose_failure (closed_members s)) as [e|] eqn:E;
      [| done].
    apply first_dispose_failure_elem in E as (m & Hm & Hd).
    specialize (Hnone m Hm). rewrite Hd in Hnone. simpl in Hnone.
    by rewrite Hnone.
  - unfold sweep_reports.
    destruct (first_dispose_failure (closed_members s)) as [e|];
      [destruct (is_CancelledError e) |]; simpl; lia.
  - unfold sweep_outcome, sweep_reports.
    destruct (first_dispose_failure (closed_members s)) as [e|];
      [destruct (is_CancelledError e) |]; done.
  - intros obv. rewrite Hobs. by apply detached_closed_lookup.
  - intros (obv & o & Hl & Hc). rewrite Hdisp.
    assert ((obv, o) ∈ closed_members s) as Hin
      by (by apply closed_members_spec).
    destruct (closed_members s) as [|m l];
      [by apply elem_of_nil in Hin | done].
Qed.

(** X5. When the disposal of every member reaches [__dispose__],
    [_aclose] leaves the observer set empty, whether disposals raise or
    not, unless the sweep it awaits first ends cancelled: that happens
    only to a sweep that is still pending, [_aclose] then raises
    [CancelledError] at the [await], and the members that were open are
    left attached. *)
Theorem aclose_detaches_every_member s :
  all_reach_dispose s →
  let awaited := awaited_sweep s in
  awaited.1 = match _disposables s with
              | Some Pending => sweep_outcome s
              | _ => Returned tt
              end
  ∧ (awaited.1 = Returned tt → _observers (_aclose s).2 = ∅)
  ∧ (∀ e, awaited.1 = Raised e →
          e = cancelled_error
          ∧ _aclose s = (Raised e, awaited.2)
          ∧ ∀ obv, _observers (_aclose s).2 !! obv
                   = match _observers s !! obv with
                     | Some o => if closed o then None else Some o
                     | None => None
                     end).
Proof.
  intros Hall. cbv zeta.
  destruct (awaited_sweep_spec s) as [Hres _].
  pose proof (awaited_sweep_observers s) as Hobs.
  rewrite aclose_unfold.
  destruct (awaited_sweep s) as [r1 s1] eqn:E. simpl in *.
  split; [exact Hres|]. split.
  - intros ->. rewrite gather_observers.
    apply map_empty. intros obv. rewrite detached_lookup.
    + case_decide as Hin; [done|].
      destruct (_observers s1 !! obv) as [o|] eqn:El; [| done].
      exfalso. apply Hin. apply list_elem_of_fmap.
      exists (obv, o). split; [done|]. unfold members.
      by apply elem_of_map_to_list'.
    + intros m Hm. unfold members in Hm.
      apply elem_of_map_to_list' in Hm. rewrite Hobs in Hm.
      destruct (_disposables s) as [[|]|]; try by eapply Hall.
      apply detached_lookup_Some in Hm. by eapply Hall.
  - intros e ->.
    destruct (_disposables s) as [[|]|]; try discriminate.
    split; [destruct (sweep_outcome_cases s); congruence|].
    split; [done|]. simpl. intros obv. rewrite Hobs.
    apply detached_closed_lookup. intros obv' o Hl _. by eapply Hall.
Qed.

(** *** Runs of sends *)

Lemma send_all_cons (ev : K * Namespace) events s :
  send_all (ev :: events) s
  = match _asend ev.1 ev.2 s with
    | (Returned _, s') => send_all events s'
    | (Raised e, s') => (Raised e, s')
    end.
Proof. reflexivity. Qed.

Lemma asend_with_finished_task s (value : K) namespace :
  _disposables s = Some Finished →
  _disposables (_asend value namespace s).2 = Some Finished
  ∧ dom (_observers (_asend value namespace s).2) = dom (_observers s).
Proof.
  intros Hd. destruct (open_members s) as [|m l] eqn:Hopen.
  - destruct (fan_out_to_no_one s value cancelled_error namespace Hopen)
      as [-> _]. done.
  - assert (open_members s ≠ []) as Hne by (rewrite Hopen; discriminate).
    destruct (asend_state s value namespace Hne) as [-> ->].
    rewrite Hd. split; [by destruct (asend_cancelled _ _ _)|].
    unfold delivered.
    by rewrite (dom_alters (λ m, set_closed (asend m.2 value namespace).2)).
Qed.

Lemma send_all_with_finished_task events : ∀ s,
  _disposables s = Some Finished →
  _disposables (send_all events s).2 = Some Finished
  ∧ dom (_observers (send_all events s).2) = dom (_observers s).
Proof.
  induction events as [|ev events IH]; intros s Hd; [done|].
  rewrite send_all_cons.
  destruct (asend_with_finished_task s ev.1 ev.2 Hd) as [Hd' Hdom].
  destruct (_asend ev.1 ev.2 s) as [[[]|e] s'] eqn:E; simpl in *.
  - destruct (IH s' Hd') as [H1 H2]. split; [done | congruence].
  - done.
Qed.

(** X6. A sweep that runs while no member is closed returns before the
    [try] whose [finally] resets [_disposables]: the hub keeps holding the
    finished task, which is true, so no later [_asend] enqueues another
    sweep: whatever is sent from then on, and whichever members close,
    [_disposables] stays that task and no member leaves the set. *)
Theorem idle_sweep_is_never_rescheduled s (events : list (K * Namespace)) :
  (∀ obv o, _observers s !! obv = Some o → closed o = false) →
  _disposables s = Some Pending →
  let swept := run_task s in
  let sent := send_all events swept.2 in
  swept = (Returned tt, with_disposables (Some Finished) s)
  ∧ _disposables sent.2 = Some Finished
  ∧ dom (_observers sent.2) = dom (_observers s).
Proof.
  intros Hopen Hd. cbv zeta.
  assert (closed_members s = []) as Hnone.
  { destruct (closed_members s) as [|m l] eqn:El; [done|].
    assert (m ∈ closed_members s) as Hin
      by (rewrite El; apply list_elem_of_here).
    apply closed_members_spec in Hin as [Hin Hc].
    apply Hopen in Hin. congruence. }
  assert (run_task s = (Returned tt, with_disposables (Some Finished) s))
    as Hrun.
  { unfold run_task, Eff.bind at 1.
    rewrite (clear_closed_observers_idle s Hnone).
    unfold Eff.ret, Eff.bind, Eff.get. simpl.
    by rewrite Hd. }
  rewrite Hrun. simpl. split; [done|].
  apply (send_all_with_finished_task events
           (with_disposables (Some Finished) s)). reflexivity.
Qed.

Lemma set_closed_same (o : ObserverProtocol K) : set_closed (closed o) o = o.
Proof. by destruct o. Qed.

Lemma delivered_stay_open (value : K) namespace l : ∀ observers,
  (∀ m, m ∈ l → observers !! m.1 = Some m.2 ∧ stays_open m.2) →
  delivered value namespace l observers = observers.
Proof.
  induction l as [|m l IH]; intros observers Hall; [done|].
  change (delivered value namespace (m :: l) observers)
    with (delivered value namespace l
            (alter (set_closed (asend m.2 value namespace).2) m.1 observers)).
  destruct (Hall m) as (Hl & Hc & Hs); [apply list_elem_of_here|].
  rewrite alter_id.
  - apply IH. intros m' Hm'. apply Hall. by apply list_elem_of_further.
  - intros o Ho. rewrite Hl in Ho. injection Ho as <-.
    rewrite Hs, <- Hc. apply set_closed_same.
Qed.

Lemma open_members_all s : all_stay_open s → open_members s = members s.
Proof.
  intros Hall. unfold open_members.
  apply forallb_filter_id, forallb_forall. intros m Hm.
  apply list_elem_of_In in Hm. unfold members in Hm.
  apply elem_of_map_to_list' in Hm. apply Hall in Hm as [-> _]. done.
Qed.

Lemma none_cancelled_open s (value : K) namespace :
  none_cancelled s →
  asend_cancelled value namespace (open_members s) = false.
Proof.
  intros Hnone. unfold asend_cancelled.
  apply not_true_is_false. intros H.
  apply existsb_exists in H as (m & Hm & Hc).
  apply filter_In in Hm as [Hm _]. apply list_elem_of_In in Hm.
  unfold members in Hm. apply elem_of_map_to_list' in Hm.
  rewrite (Hnone _ _ Hm) in Hc. discriminate.
Qed.

(** X7. Through a hub whose members are open and stay so, and whose
    deliveries never end cancelled, a run of sends is relayed in order:
    every event reaches every member, the events in the order they were
    sent, and the producer is never raised at, whatever else the members
    raise. *)
Theorem sends_are_relayed_in_order (events : list (K * Namespace)) : ∀ s,
  _observers s ≠ ∅ →
  all_stay_open s →
  none_cancelled s →
  let r := send_all events s in
  r.1 = Returned tt
  ∧ calls r.2 = calls s ++ relayed events (members s)
  ∧ _observers r.2 = _observers s.
Proof.
  induction events as [|ev events IH]; intros s Hne Hall Hnone; cbv zeta.
  - simpl. by rewrite app_nil_r.
  - rewrite send_all_cons.
    pose proof (open_members_all s Hall) as Hopen.
    assert (open_members s ≠ []) as Hsome.
    { rewrite Hopen. unfold members. by rewrite map_to_list_empty_iff. }
    destruct (asend_spec s ev.1 ev.2) as [_ Hspec].
    destruct (Hspec (proj1 (some_observers s) Hne))
      as (_ & Hret & Hcalls & _).
    destruct (asend_state s ev.1 ev.2 Hsome) as [Hobs _].
    rewrite delivered_stay_open in Hobs.
    2:{ intros m Hm. rewrite Hopen in Hm. unfold members in Hm.
        apply elem_of_map_to_list' in Hm. split; [done|]. by eapply Hall. }
    specialize (Hret Hsome).
    rewrite (none_cancelled_open s ev.1 ev.2 Hnone) in Hret.
    destruct (_asend ev.1 ev.2 s) as [[[]|e] s'] eqn:E; simpl in *;
      [| discriminate].
    destruct (IH s') as (H1 & H2 & H3).
    + by rewrite Hobs.
    + unfold all_stay_open. by rewrite Hobs.
    + unfold none_cancelled. by rewrite Hobs.
    + split; [done|]. split; [| congruence].
      rewrite H2, Hcalls, Hopen. unfold members. rewrite Hobs.
      unfold relayed. simpl. by rewrite <- app_assoc.
Qed.

End MultiStreamRunProperties.

(** ** Runs on the sample hubs *)

Section MultiStreamRunSamples.

Import MultiStream MultiStreamRuns.

(** Cases on a member of a hub given by the list of its members. *)
Ltac member_cases H :=
  apply elem_of_map_to_list in H; vm_compute in H;
  repeat (apply elem_of_cons in H as [H | H]);
  [ injection H as -> -> .. | by apply elem_of_nil in H ].

Lemma observe_dispose_round_trip_witness :
  (__observe__ (7%positive, accepting) ;;; __dispose__ 7%positive)%eff
    mixed_hub
  = (Returned tt, mixed_hub).
Proof.
  assert (H : _observers mixed_hub !! (7%positive, accepting).1 = None)
    by (vm_compute; reflexivity).
  exact (proj1 (observe_dispose_round_trip mixed_hub
                  (7%positive, accepting) H)).
Defined.

Lemma fan_out_keeps_membership_witness :
  _disposables mixed_hub ≠ Some Pending
  ∧ dom (_observers (_asend 5%Z root mixed_hub).2) = dom (_observers mixed_hub)
  ∧ dom (_observers (_asend 5%Z root cancelling_hub).2)
    = dom (_observers cancelling_hub).
Proof.
  assert (H : _disposables mixed_hub ≠ Some Pending)
    by (vm_compute; discriminate).
  assert (H' : _disposables cancelling_hub ≠ Some Pending)
    by (vm_compute; discriminate).
  split; [exact H|]. split.
  - exact (proj1 (fan_out_keeps_membership mixed_hub 5%Z boom root H)).
  - exact (proj1 (fan_out_keeps_membership cancelling_hub 5%Z boom root H')).
Defined.

Lemma fan_out_enqueues_one_sweep_witness :
  _disposables mixed_hub ≠ Some Pending
  ∧ _disposables (_asend 5%Z root mixed_hub).2 = Some Pending
  ∧ _disposables (_athrow boom root cancelling_hub).2 = None.
Proof.
  assert (H : _disposables mixed_hub ≠ Some Pending)
    by (vm_compute; discriminate).
  assert (H' : _disposables cancelling_hub ≠ Some Pending)
    by (vm_compute; discriminate).
  split; [exact H|]. split.
  - rewrite (proj1 (fan_out_enqueues_one_sweep mixed_hub 5%Z boom root H)).
    vm_compute. reflexivity.
  - rewrite (proj2 (fan_out_enqueues_one_sweep cancelling_hub 5%Z boom root
                      H')).
    vm_compute. reflexivity.
Defined.

Lemma sweep_detaches_exactly_the_closed_witness :
  ((_clear_closed_observers mixed_hub).1 = Returned tt
   ∧ _observers (_clear_closed_observers mixed_hub).2 !! 1%positive = None
   ∧ _observers (_clear_closed_observers mixed_hub).2 !! 3%positive
     = Some accepting)
  ∧ ((_clear_closed_observers interrupted_hub).1 = Raised cancelled_error
     ∧ exception_handler (_clear_closed_observers interrupted_hub).2 = []
     ∧ _observers (_clear_closed_observers interrupted_hub).2 !! 1%positive
       = None
     ∧ _disposables (_clear_closed_observers interrupted_hub).2 = None).
Proof.
  assert (H : ∀ obv o, _observers mixed_hub !! obv = Some o →
                       closed o = true → (dispose o).1 = true).
  { intros obv o Hl _. member_cases Hl; reflexivity. }
  assert (H' : ∀ obv o, _observers interrupted_hub !! obv = Some o →
                        closed o = true → (dispose o).1 = true).
  { intros obv o Hl _. member_cases Hl; reflexivity. }
  destruct (sweep_detaches_exactly_the_closed mixed_hub H)
    as (Hret & _ & _ & _ & _ & _ & Hobs & _).
  destruct (sweep_detaches_exactly_the_closed interrupted_hub H')
    as (Hret' & _ & _ & Hrep' & _ & _ & Hobs' & Hdisp').
  split; [split; [| split] | split; [| split; [| split]]].
  - rewrite Hret. vm_compute. reflexivity.
  - rewrite Hobs. vm_compute. reflexivity.
  - rewrite Hobs. vm_compute. reflexivity.
  - rewrite Hret'. vm_compute. reflexivity.
  - rewrite Hrep'. vm_compute. reflexivity.
  - rewrite Hobs'. vm_compute. reflexivity.
  - apply Hdisp'. exists 1%positive, stale_cancelled.
    split; vm_compute; reflexivity.
Defined.

Lemma aclose_detaches_every_member_witness :
  _observers (_aclose mixed_hub).2 = ∅
  ∧ _aclose interrupted_hub
    = (Raised cancelled_error, (awaited_sweep interrupted_hub).2)
  ∧ _observers (_aclose interrupted_hub).2 !! 3%positive = Some accepting.
Proof.
  assert (H : all_reach_dispose mixed_hub).
  { intros obv o Hl. member_cases Hl; reflexivity. }
  assert (H' : all_reach_dispose interrupted_hub).
  { intros obv o Hl. member_cases Hl; reflexivity. }
  destruct (aclose_detaches_every_member mixed_hub H) as (_ & Hempty & _).
  destruct (aclose_detaches_every_member interrupted_hub H')
    as (_ & _ & Hraise).
  assert (Hr : (awaited_sweep interrupted_hub).1 = Raised cancelled_error)
    by (vm_compute; reflexivity).
  destruct (Hraise cancelled_error Hr) as (_ & Heq & Hobs).
  split; [apply Hempty; vm_compute; reflexivity|].
  split; [exact Heq|]. rewrite Hobs. vm_compute. reflexivity.
Defined.

Lemma idle_sweep_is_never_rescheduled_witness :
  let s := with_disposables (Some Pending) (hub_of [(3%positive, accepting)]) in
  _disposables (send_all [(5%Z, root); (6%Z, root)] (run_task s).2).2
  = Some Finished.
Proof.
  cbv zeta.
  assert (H : ∀ obv o,
            _observers (with_disposables (Some Pending)
                          (hub_of [(3%positive, accepting)])) !! obv = Some o →
            closed o = false).
  { intros obv o Hl. member_cases Hl; reflexivity. }
  exact (proj1 (proj2 (idle_sweep_is_never_rescheduled _
                         [(5%Z, root); (6%Z, root)] H eq_refl))).
Defined.

Lemma sends_are_relayed_in_order_witness :
  calls (send_all [(5%Z, root); (6%Z, root)]
           (hub_of [(3%positive, accepting); (8%positive, accepting)])).2
  = [CallAsend 3%positive 5%Z root; CallAsend 8%positive 5%Z root;
     CallAsend 3%positive 6%Z root; CallAsend 8%positive 6%Z root].
Proof.
  assert (Hne : _observers (hub_of [(3%positive, accepting);
                                    (8%positive, accepting)]) ≠ ∅)
    by (apply some_observers; vm_compute; reflexivity).
  assert (Hall : all_stay_open (hub_of [(3%positive, accepting);
                                        (8%positive, accepting)])).
  { intros obv o Hl. member_cases Hl; by split. }
  assert (Hnone : none_cancelled (hub_of [(3%positive, accepting);
                                          (8%positive, accepting)])).
  { intros obv o Hl. member_cases Hl; reflexivity. }
  destruct (sends_are_relayed_in_order [(5%Z, root); (6%Z, root)] _
              Hne Hall Hnone)
    as (_ & Hcalls & _).
  rewrite Hcalls. vm_compute. reflexivity.
Defined.

End MultiStreamRunSamples.

(** ** pipe: chains and failures *)

Section PipeChainProperties.

Import PipeOp.

Lemma last_default {A} (l : list A) : ∀ a d d',
  List.last (a :: l) d = List.last (a :: l) d'.
Proof.
  induction l as [|b l IH]; intros a d d'; [done|].
  change (List.last (b :: l) d = List.last (b :: l) d'). apply IH.
Qed.

Lemma chain_transformer more : ∀ self,
  _transformer (fold_left __or__ more self)
  = List.last more (_transformer self).
Proof.
  induction more as [|t more IH]; intros self; [done|].
  change (fold_left __or__ (t :: more) self)
    with (fold_left __or__ more (__or__ self t)).
  rewrite IH. change (_transformer (__or__ self t)) with t.
  destruct more as [|b more]; [done|].
  change (List.last (b :: more) t = List.last (b :: more) (_transformer self)).
  apply last_default.
Qed.

(** X8. [source | t1 | ... | tn] links every transformer to the one
    before it, the first one to the source: when no attachment fails,
    entering the chain attaches the n observations, the newest first, and
    returns the last transformer [tn]. *)
Theorem chain_enter_attaches_every_stage
  (enter_outcome : Ref → Ref → outcome unit)
  (source first : Ref) (more : list Ref) (log : list Event) :
  never_fails enter_outcome →
  observations (chain source first more)
  = rev (links source (first :: more))
  ∧ __aenter__ enter_outcome (chain source first more) log
    = (Returned (List.last more first),
       log ++ attaches (rev (links source (first :: more)))).
Proof.
  intros Hok.
  assert (Hobs : observations (chain source first more)
                 = rev (links source (first :: more))).
  { rewrite <- (rev_involutive (observations _)). f_equal.
    unfold chain. by rewrite chain_observations. }
  split; [exact Hobs|].
  rewrite aenter_all_attached by done. rewrite Hobs.
  unfold chain. by rewrite chain_transformer.
Qed.

Section Failures.

Variables enter_outcome exit_outcome : Ref → Ref → outcome unit.

Lemma aenter_prefix self : ∀ log,
  let r := __aenter__ enter_outcome self log in
  ∃ done rest,
    attaches (observations self) = done ++ rest
    ∧ r.2 = log ++ done
    ∧ (returned r.1 = true → rest = [])
    ∧ (∀ e, r.1 = Raised e →
            ∃ done' o t, done = done' ++ [Attach o t]
                         ∧ enter_outcome o t = Raised e).
Proof.
  induction self as [o t | o t prev IH] using pipe_chain_ind; intros log;
    cbv zeta; simpl; unfold Eff.bind, observe_aenter; simpl.
  - destruct (enter_outcome o t) as [[]|e] eqn:E; simpl.
    + exists [Attach o t], []. repeat split; try done.
    + exists [Attach o t], []. repeat split; try done.
      intros e' [= <-]. by exists [], o, t.
  - destruct (enter_outcome o t) as [[]|e] eqn:E; simpl.
    + destruct (IH (log ++ [Attach o t])) as (done & rest & H1 & H2 & H3 & H4).
      cbv zeta in *.
      destruct (__aenter__ enter_outcome prev (log ++ [Attach o t]))
        as [[r|e] log'] eqn:E'; simpl in *.
      * exists (Attach o t :: done), rest.
        rewrite H2, <- app_assoc. unfold attaches in *. simpl.
        rewrite H1. repeat split; try done.
      * exists (Attach o t :: done), rest.
        rewrite H2, <- app_assoc. unfold attaches in *. simpl.
        rewrite H1. repeat split; try done.
        intros e' [= <-]. destruct (H4 e eq_refl) as (d' & o' & t' & -> & He).
        by exists (Attach o t :: d'), o', t'.
    + exists [Attach o t], (attaches (observations prev)).
      repeat split; try done.
      intros e' [= <-]. by exists [], o, t.
Qed.

Lemma aexit_prefix self : ∀ log,
  let r := __aexit__ exit_outcome self log in
  ∃ done rest,
    disposes (rev (observations self)) = done ++ rest
    ∧ r.2 = log ++ done
    ∧ (returned r.1 = true → rest = [])
    ∧ (∀ e, r.1 = Raised e →
            ∃ done' o t, done = done' ++ [Dispose o t]
                         ∧ exit_outcome o t = Raised e).
Proof.
  induction self as [o t | o t prev IH] using pipe_chain_ind; intros log;
    cbv zeta; simpl; unfold Eff.bind, observe_aexit; simpl.
  - destruct (exit_outcome o t) as [[]|e] eqn:E; simpl.
    + exists [Dispose o t], []. repeat split; try done.
    + exists [Dispose o t], []. repeat split; try done.
      intros e' [= <-]. by exists [], o, t.
  - destruct (IH log) as (done & rest & H1 & H2 & H3 & H4). cbv zeta in *.
    unfold disposes in *. rewrite map_app, H1. simpl.
    destruct (__aexit__ exit_outcome prev log) as [[[]|e] log'] eqn:E';
      simpl in *.
    + rewrite (H3 eq_refl), app_nil_r in *.
      exists (done ++ [Dispose o t]), [].
      rewrite H2, app_nil_r, <- app_assoc.
      destruct (exit_outcome o t) as [[]|e] eqn:E; simpl;
        repeat split; try done.
      intros e' [= <-]. by exists done, o, t.
    + exists done, (rest ++ [Dispose o t]).
      rewrite app_assoc. repeat split; try done.
Qed.

(** X9. Entering and exiting a pipe stop at the first observation that
    fails and undo nothing: the events logged are a prefix of the
    attachments (newest stage first), respectively of the disposals
    (oldest stage first), of the whole chain; the prefix is the whole when
    the call returns; and when it raises, the exception is that of the
    last observation tried, the remaining stages being left as they
    were. *)
Theorem pipe_enter_exit_stop_at_first_failure (self : pipe)
  (log : list Event) :
  let entered := __aenter__ enter_outcome self log in
  let exited := __aexit__ exit_outcome self log in
  (∃ done rest,
     attaches (observations self) = done ++ rest
     ∧ entered.2 = log ++ done
     ∧ (returned entered.1 = true → rest = [])
     ∧ (∀ e, entered.1 = Raised e →
             ∃ done' o t, done = done' ++ [Attach o t]
                          ∧ enter_outcome o t = Raised e))
  ∧ (∃ done rest,
       disposes (rev (observations self)) = done ++ rest
       ∧ exited.2 = log ++ done
       ∧ (returned exited.1 = true → rest = [])
       ∧ (∀ e, exited.1 = Raised e →
               ∃ done' o t, done = done' ++ [Dispose o t]
                            ∧ exit_outcome o t = Raised e)).
Proof. split; [apply aenter_prefix | apply aexit_prefix]. Qed.

End Failures.

End PipeChainProperties.

(** ** Unit._worker: failures *)

Section UnitFailureProperties.

Import UnitSource.

Context {K : Type}.

(** X10. When the delivery made by the worker of [Unit] raises, the
    worker raises the same exception and stops: [aclose] is not awaited,
    also when [keep_alive] is false, and the observer is left as the
    delivery left it.  When the delivery returns, what the worker returns
    is what [aclose] returns if it is awaited.  The worker makes one or two
    calls on the observer, never more. *)
Theorem unit_worker_failed_delivery_escapes
  (value : Value K) (o : Observer K) (namespace : UUID) :
  let after := delivery value namespace {| observer := o; calls := [] |} in
  let run := run_worker value o namespace in
  (∀ e, after.1 = Raised e → run = (Raised e, after.2))
  ∧ (after.1 = Returned tt →
     run = if negb (closed (observer after.2) || keep_alive o)
           then observer_aclose after.2 else (Returned tt, after.2))
  ∧ (1 ≤ List.length (calls run.2) ≤ 2)%nat.
Proof.
  cbv zeta. split; [| split].
  - intros e.
    unfold run_worker, _worker, delivery, observer_asend, observer_araise,
      observer_aclose, invoke, Eff.bind, Eff.get, Eff.ret; simpl.
    destruct value as [v | [v | ex]]; simpl;
      [ destruct (asend o v None (closed o)) as [[[]|e'] c]
      | destruct (asend o v None (closed o)) as [[[]|e'] c]
      | destruct (araise o ex (Some namespace) (closed o)) as [[[]|e'] c] ];
      simpl; intros [= <-]; reflexivity.
  - unfold run_worker, _worker, delivery, observer_asend, observer_araise,
      observer_aclose, invoke, Eff.bind, Eff.get, Eff.ret; simpl.
    destruct value as [v | [v | ex]]; simpl;
      [ destruct (asend o v None (closed o)) as [[[]|e'] c]
      | destruct (asend o v None (closed o)) as [[[]|e'] c]
      | destruct (araise o ex (Some namespace) (closed o)) as [[[]|e'] c] ];
      simpl; intros H; try discriminate;
      destruct c, (keep_alive o); reflexivity.
  - rewrite worker_calls, delivery_calls, length_app.
    destruct value as [v | [v | ex]]; simpl;
      destruct (_ && _); simpl; lia.
Qed.

End UnitFailureProperties.

(** ** Take *)

Section TakeProperties.

Import Take.

Context {K N : Type}.

Variable super_asend_outcome : K → N → outcome unit.
Variable super_aclose_outcome : outcome unit.

Local Abbreviation feed :=
  (feed super_asend_outcome super_aclose_outcome).
Local Abbreviation aclose :=
  (aclose super_asend_outcome super_aclose_outcome).
Local Abbreviation __asend__ :=
  (__asend__ super_asend_outcome super_aclose_outcome).

Implicit Types (s : State K N) (events : list (K * N)).

Lemma asend_relays s (value : K) (namespace : N) :
  _reverse_queue s = None → (0 < _count s)%Z →
  __asend__ value namespace s
  = (super_asend_outcome value namespace,
     {| _count := _count s - 1; _reverse_queue := None;
        closed := closed s;
        super_calls := super_calls s ++ [SuperAsend value namespace] |}).
Proof.
  intros Hq Hc. apply Z.ltb_lt in Hc.
  cbv [Take.__asend__ Eff.bind Eff.get Eff.modify super_asend log].
  rewrite Hq, Hc. simpl. by rewrite Hq.
Qed.

Lemma asend_closes s (value : K) (namespace : N) :
  _reverse_queue s = None → (_count s ≤ 0)%Z →
  __asend__ value namespace s
  = if closed s then (Returned tt, s)
    else (super_aclose_outcome,
          {| _count := _count s; _reverse_queue := None; closed := true;
             super_calls := super_calls s ++ [SuperAclose] |}).
Proof.
  intros Hq Hc. apply Z.ltb_ge in Hc.
  cbv [Take.__asend__ Take.aclose __aclose__ Eff.bind Eff.get Eff.modify
       Eff.ret super_aclose log].
  rewrite Hq, Hc. destruct (closed s); [done|]. simpl. by rewrite Hq.
Qed.

Lemma asend_queues s (q : Deque K N) (value : K) (namespace : N) :
  _reverse_queue s = Some q →
  __asend__ value namespace s
  = (Returned tt, set_queue (Some (append (value, namespace) q)) s).
Proof.
  intros Hq. cbv [Take.__asend__ Eff.bind Eff.get Eff.modify].
  by rewrite Hq.
Qed.

Lemma feed_forward events : ∀ s (c : nat),
  _reverse_queue s = None →
  _count s = Z.of_nat c →
  let r := feed events s in
  super_calls r.2
  = super_calls s ++ relays (take c events)
    ++ (if (c <? length events)%nat && negb (closed s)
        then [SuperAclose] else [])
  ∧ closed r.2 = closed s || (c <? length events)%nat
  ∧ _count r.2 = Z.of_nat (c - length events)
  ∧ _reverse_queue r.2 = None.
Proof.
  induction events as [|ev events IH]; intros s c Hq Hc; cbv zeta.
  - simpl. rewrite app_nil_r, orb_false_r, Nat.sub_0_r.
    destruct c; simpl; by rewrite ?app_nil_r.
  - simpl. destruct c as [|c].
    + (* the count is used up: the stream closes *)
      rewrite asend_closes by (done || lia).
      destruct (closed s) eqn:Hclosed.
      * destruct (IH s 0%nat Hq Hc) as (H1 & H2 & H3 & H4). cbv zeta in *.
        destruct (feed events s) as [rs s'] eqn:E. simpl in *.
        rewrite H1, H2, H3, H4, Hclosed. simpl.
        by rewrite andb_false_r.
      * match goal with
        | |- context [Take.feed _ _ events ?s1] =>
            destruct (IH s1 0%nat eq_refl Hc) as (H1 & H2 & H3 & H4);
            destruct (feed events s1) as [rs s'] eqn:E
        end.
        simpl in *. rewrite H1, H2, H3, H4. simpl.
        by rewrite andb_false_r, app_nil_r.
    + (* the value is relayed *)
      rewrite asend_relays by (done || lia).
      match goal with
      | |- context [Take.feed _ _ events ?s1] =>
          destruct (IH s1 c eq_refl) as (H1 & H2 & H3 & H4); [simpl; lia|];
          destruct (feed events s1) as [rs s'] eqn:E
      end.
      simpl in *. rewrite H1, H2, H3, H4. simpl.
      by rewrite <- app_assoc.
Qed.

(** X11. [Take(count)] with [count >= 0] relays to its base class the
    first [count] values it is sent, with their namespaces and in order,
    and nothing after them, however the relaying ends.  It does not close
    upon relaying the last of them: it closes, once, when the next value
    arrives, and that value is dropped. *)
Theorem take_relays_the_first_values (count : Z) events :
  (0 ≤ count)%Z →
  let n := Z.to_nat count in
  let r := feed events (__init__ count) in
  super_calls r.2
  = relays (take n events)
    ++ (if (n <? length events)%nat then [SuperAclose] else [])
  ∧ closed r.2 = (n <? length events)%nat
  ∧ _count r.2 = Z.of_nat (n - length events).
Proof.
  intros Hcount. cbv zeta.
  assert (Hq : _reverse_queue (__init__ (K:=K) (N:=N) count) = None).
  { unfold __init__. simpl.
    by assert ((count <? 0)%Z = false) as -> by (apply Z.ltb_ge; lia). }
  destruct (feed_forward events (__init__ count) (Z.to_nat count) Hq)
    as (H1 & H2 & H3 & _); [simpl; lia|].
  cbv zeta in *. simpl in H1, H2. rewrite andb_true_r in H1.
  by rewrite H1, H2, H3.
Qed.

Lemma append_items (x : K * N) (q : Deque K N) :
  (length (items q) ≤ maxlen q)%nat →
  items (append x q)
  = drop (length (items q ++ [x]) - maxlen q) (items q ++ [x])
  ∧ (length (items (append x q)) ≤ maxlen q)%nat.
Proof.
  intros Hlen. unfold append. simpl. rewrite length_app. simpl.
  destruct (length (items q) <? maxlen q)%nat eqn:E.
  - apply Nat.ltb_lt in E.
    replace (length (items q) + 1 - maxlen q)%nat with 0%nat by lia.
    simpl. split; [done|]. rewrite length_app. simpl. lia.
  - apply Nat.ltb_ge in E.
    replace (length (items q) + 1 - maxlen q)%nat with 1%nat by lia.
    split; [done|]. rewrite length_drop, length_app. simpl. lia.
Qed.

Lemma feed_reverse events : ∀ s (q : Deque K N),
  _reverse_queue s = Some q →
  (length (items q) ≤ maxlen q)%nat →
  feed events s
  = (map (λ _, Returned tt) events,
     set_queue
       (Some {| maxlen := maxlen q;
                items := drop (length (items q ++ events) - maxlen q)
                              (items q ++ events) |}) s).
Proof.
  induction events as [|ev events IH]; intros s q Hq Hlen.
  - simpl. rewrite app_nil_r.
    replace (length (items q) - maxlen q)%nat with 0%nat by lia. simpl.
    destruct s, q; simpl in *. by rewrite Hq.
  - simpl. rewrite (asend_queues s q) by done.
    destruct (append_items (ev.1, ev.2) q Hlen) as [Hitems Hlen'].
    rewrite (IH (set_queue (Some (append (ev.1, ev.2) q)) s)
               (append (ev.1, ev.2) q) eq_refl Hlen').
    f_equal. unfold set_queue. simpl. do 3 f_equal.
    unfold append in Hitems. simpl in Hitems. rewrite Hitems.
    rewrite <- surjective_pairing.
    set (d := (length (items q ++ [ev]) - maxlen q)%nat).
    assert (d ≤ length (items q ++ [ev]))%nat as Hd by (unfold d; lia).
    rewrite <- (drop_app_le (items q ++ [ev]) events d Hd).
    rewrite drop_drop, <- app_assoc. simpl. f_equal.
    rewrite ?length_drop, ?length_app. simpl.
    unfold d. rewrite ?length_app. simpl. lia.
Qed.

(** X12. [Take(count)] with [count < 0] relays nothing while it is sent
    values, and never raises: it keeps the last [|count|] events, values
    with their namespaces, in the order they came, the stream staying
    open. *)
Theorem take_negative_keeps_the_last_values (count : Z) events :
  (count < 0)%Z →
  let n := Z.to_nat (Z.abs count) in
  let r := feed events (__init__ count) in
  r.1 = map (λ _, Returned tt) events
  ∧ super_calls r.2 = []
  ∧ closed r.2 = false
  ∧ _reverse_queue r.2
    = Some {| maxlen := n; items := drop (length events - n) events |}.
Proof.
  intros Hcount. cbv zeta.
  assert (Hq : _reverse_queue (__init__ (K:=K) (N:=N) count)
               = Some {| maxlen := Z.to_nat (Z.abs count); items := [] |}).
  { unfold __init__. simpl.
    by assert ((count <? 0)%Z = true) as -> by (apply Z.ltb_lt; lia). }
  rewrite (feed_reverse events _ _ Hq) by (simpl; lia).
  simpl. repeat split.
Qed.

Lemma drain_relays (n : nat) items : ∀ s,
  (∀ v ns, super_asend_outcome v ns = Returned tt) →
  let r := drain super_asend_outcome n items s in
  r.1 = Returned tt
  ∧ super_calls r.2 = super_calls s ++ relays items
  ∧ closed r.2 = closed s
  ∧ _reverse_queue r.2
    = match items with
      | [] => _reverse_queue s
      | _ :: _ => Some {| maxlen := n; items := [] |}
      end.
Proof.
  intros s Hok. revert s.
  induction items as [|x items IH]; intros s; cbv zeta.
  - simpl. by rewrite app_nil_r.
  - simpl. unfold Eff.bind, Eff.modify, super_asend. simpl.
    rewrite Hok.
    match goal with
    | |- context [drain _ n items ?s1] =>
        destruct (IH s1) as (H1 & H2 & H3 & H4);
        destruct (drain super_asend_outcome n items s1) as [r s'] eqn:E
    end.
    simpl in *. rewrite H2, H3, H4. simpl. rewrite <- app_assoc.
    repeat split; try done. by destruct items.
Qed.

Lemma aclose_open s (q : Deque K N) :
  closed s = false → _reverse_queue s = Some q →
  aclose s
  = match drain super_asend_outcome (maxlen q) (items q)
            {| _count := _count s; _reverse_queue := _reverse_queue s;
               closed := true; super_calls := super_calls s |} with
    | (Returned _, s') =>
        (super_aclose_outcome, log SuperAclose s')
    | (Raised e, s') => (Raised e, s')
    end.
Proof.
  intros Hc Hq.
  cbv [Take.aclose __aclose__ Eff.bind Eff.get Eff.modify super_aclose].
  rewrite Hc. simpl. rewrite Hq. by destruct (drain _ _ _ _) as [[[]|e] s'].
Qed.

Lemma aclose_closed s : closed s = true → aclose s = (Returned tt, s).
Proof.
  intros Hc. cbv [Take.aclose Eff.bind Eff.get Eff.ret]. by rewrite Hc.
Qed.

(** X13. Closing a [Take(count)] with [count < 0] whose base class
    accepts what it is relayed flushes the queue: the last [|count|] events
    that were sent are relayed in the order they came, each with its
    namespace, then the base class is closed; the queue is left empty and
    the stream closed, so that closing again does nothing. *)
Theorem take_negative_flushes_on_close (count : Z) events :
  (count < 0)%Z →
  (∀ v ns, super_asend_outcome v ns = Returned tt) →
  let n := Z.to_nat (Z.abs count) in
  let fed := (feed events (__init__ count)).2 in
  let r := aclose fed in
  r.1 = super_aclose_outcome
  ∧ super_calls r.2
    = relays (drop (length events - n) events) ++ [SuperAclose]
  ∧ closed r.2 = true
  ∧ (∀ q, _reverse_queue r.2 = Some q → items q = [])
  ∧ aclose r.2 = (Returned tt, r.2).
Proof.
  intros Hcount Hok. cbv zeta.
  assert (Hq0 : _reverse_queue (__init__ (K:=K) (N:=N) count)
                = Some {| maxlen := Z.to_nat (Z.abs count); items := [] |}).
  { unfold __init__. simpl.
    by assert ((count <? 0)%Z = true) as -> by (apply Z.ltb_lt; lia). }
  rewrite (feed_reverse events _ _ Hq0) by (simpl; lia). simpl.
  match goal with
  | |- context [Take.aclose _ _ ?fed] =>
      assert (Hclosed : closed fed = false) by reflexivity;
      assert (Hq : _reverse_queue fed
                   = Some {| maxlen := Z.to_nat (Z.abs count);
                             items := drop (length events
                                            - Z.to_nat (Z.abs count))
                                           events |}) by reflexivity;
      rewrite (aclose_open fed _ Hclosed Hq)
  end.
  simpl.
  match goal with
  | |- context [drain _ ?n ?items ?s1] =>
      destruct (drain_relays n items s1 Hok) as (H1 & H2 & H3 & H4);
      destruct (drain super_asend_outcome n items s1) as [r s'] eqn:E'
  end.
  simpl in *. subst r. simpl. rewrite H2, H3. simpl.
  split; [done|]. split; [done|]. split; [done|]. split.
  - rewrite H4. intros q.
    destruct (drop _ events); intros [= <-]; reflexivity.
  - by apply aclose_closed.
Qed.

End TakeProperties.

(** ** Map *)

Section MapProperties.

Import MapOp.

Context {V : Type}.

Implicit Types (mapper : Mapper V) (s : State V) (values : list V).

Lemma asend_impl_indexed mapper s (i : nat) (v : V) :
  never_raises mapper →
  _index s = Some i → _asend_mapper s = mapper →
  _asend_impl v s
  = (awaited (mapper v (Some i)),
     {| _index := Some (i + 1); _asend_mapper := mapper |}).
Proof.
  intros Hnever Hi Hm.
  cbv [_asend_impl Eff.bind Eff.get Eff.modify Eff.ret call attempt_await].
  rewrite Hi, Hm.
  destruct (mapper v (Some i)) as [v' | r | e] eqn:E; simpl.
  - by rewrite Hm.
  - rewrite Hm. by destruct r.
  - by apply Hnever in E.
Qed.

Lemma feed_indexed mapper values : ∀ s (i : nat),
  never_raises mapper →
  _index s = Some i → _asend_mapper s = mapper →
  feed values s
  = (imap (λ k v, awaited (mapper v (Some (i + k)))) values,
     match values with
     | [] => s
     | _ :: _ => {| _index := Some (i + length values);
                    _asend_mapper := mapper |}
     end).
Proof.
  induction values as [|v values IH]; intros s i Hnever Hi Hm; [done|].
  simpl. rewrite (asend_impl_indexed mapper s i v) by done.
  rewrite (IH _ (i + 1)) by done. rewrite Nat.add_0_r. f_equal.
  - f_equal. apply imap_ext. intros k x _. simpl. do 3 f_equal. lia.
  - destruct values; simpl; do 2 f_equal; lia.
Qed.

(** X14. A [Map] built with [with_index=True] whose mapper does not raise
    when called numbers the values from zero: the k-th value sent is
    handed to the mapper with index k, whether or not the awaitables the
    mapper returns fail, and after n values the index is n. *)
Theorem map_with_index_numbers_the_values mapper (araise_mapper : bool)
  values :
  never_raises mapper →
  ∃ s0, __init__ (Some mapper) araise_mapper true = Returned s0
        ∧ (feed values s0).1
          = imap (λ k v, awaited (mapper v (Some k))) values
        ∧ _index (feed values s0).2 = Some (length values).
Proof.
  intros Hnever. eexists. split; [reflexivity|].
  rewrite (feed_indexed mapper values _ 0) by done.
  split; [done|]. by destruct values.
Qed.

Lemma feed_stateless values : ∀ s,
  _index s = None →
  feed values s = (map (λ v, awaited (_asend_mapper s v None)) values, s).
Proof.
  induction values as [|v values IH]; intros s Hi; [done|].
  simpl.
  assert (_asend_impl v s = (awaited (_asend_mapper s v None), s)) as ->.
  { cbv [_asend_impl Eff.bind Eff.get Eff.ret call attempt_await].
    rewrite Hi. by destruct (_asend_mapper s v None) as [v' | r | e]. }
  by rewrite IH.
Qed.

(** X15. A [Map] built without [with_index] keeps no state: every value
    is handed to the mapper alone and the stream is after any run what it
    was before.  Built with an [araise_mapper] only, it maps every value to
    itself; built with no mapper at all, it fails its assertion. *)
Theorem map_without_index_is_stateless (asend_mapper : option (Mapper V))
  values :
  let mapper := default noop asend_mapper in
  let s0 := {| _index := None; _asend_mapper := mapper |} in
  __init__ asend_mapper true false = Returned s0
  ∧ feed values s0 = (map (λ v, awaited (mapper v None)) values, s0)
  ∧ (asend_mapper = None → (feed values s0).1 = map Returned values)
  ∧ (∀ with_index, ∃ e, __init__ (V:=V) None false with_index = Raised e).
Proof.
  cbv zeta. split; [| split; [| split]].
  - unfold __init__. by rewrite orb_true_r.
  - by rewrite feed_stateless.
  - intros ->. by rewrite feed_stateless.
  - intros with_index. by eexists.
Qed.

End MapProperties.

(** ** Max.Stream.__close__ *)

Section MaxCloseProperties.

Import Max MaxClose.

(** X16. A [Max.Stream] that was sent nothing but values of types that
    do not order against [None] has stored none of them: [__close__]
    relays [None] downstream as the maximum and then, if that returned,
    closes. *)
Theorem max_stream_close_relays_None
  (super_asend_outcome : PyVal → outcome unit)
  (super_aclose_outcome : outcome unit) (values : list PyVal) :
  Forall unordered_with_None values →
  let self := (deliveries values __init__).2 in
  let r := __close__ super_asend_outcome super_aclose_outcome (self, []) in
  r.2.2 = SuperAsend PyNone
            :: (if returned (super_asend_outcome PyNone)
                then [SuperAclose] else [])
  ∧ r.1 = match super_asend_outcome PyNone with
          | Returned _ => super_aclose_outcome
          | Raised e => Raised e
          end.
Proof.
  intros Hall. cbv zeta.
  destruct (deliveries_on_None values __init__ Hall eq_refl) as [_ ->].
  unfold __close__, Eff.bind. simpl.
  by destruct (super_asend_outcome PyNone).
Qed.

End MaxCloseProperties.

(** ** The added properties on concrete runs *)

Section MoreSamples.

Lemma chain_enter_attaches_every_stage_witness :
  PipeOp.__aenter__ PipeOp.succeed (PipeOp.chain "source" "T1" ["T2"]) []
  = (Returned "T2", [PipeOp.Attach "T1" "T2"; PipeOp.Attach "source" "T1"]).
Proof.
  assert (H : PipeOp.never_fails PipeOp.succeed) by (intros o t; reflexivity).
  exact (proj2 (chain_enter_attaches_every_stage
                  PipeOp.succeed "source" "T1" ["T2"] [] H)).
Defined.

(** [Take(2)] sent four values relays two and closes at the third. *)
Lemma take_relays_the_first_values_witness :
  Take.super_calls
    (Take.feed (λ _ _, Returned tt) (Returned tt)
       [(10%Z, 1%nat); (20%Z, 2%nat); (30%Z, 3%nat); (40%Z, 4%nat)]
       (Take.__init__ 2)).2
  = [Take.SuperAsend 10%Z 1%nat; Take.SuperAsend 20%Z 2%nat;
     Take.SuperAclose].
Proof.
  assert (H : (0 ≤ 2)%Z) by lia.
  exact (proj1 (take_relays_the_first_values
                  (λ _ _, Returned tt) (Returned tt) 2
                  [(10%Z, 1%nat); (20%Z, 2%nat); (30%Z, 3%nat); (40%Z, 4%nat)]
                  H)).
Defined.

(** [Take(-2)] sent three values holds the last two. *)
Lemma take_negative_keeps_the_last_values_witness :
  Take._reverse_queue
    (Take.feed (λ _ _, Returned tt) (Returned tt)
       [(10%Z, 1%nat); (20%Z, 2%nat); (30%Z, 3%nat)] (Take.__init__ (-2))).2
  = Some {| Take.maxlen := 2;
            Take.items := [(20%Z, 2%nat); (30%Z, 3%nat)] |}.
Proof.
  assert (H : (-2 < 0)%Z) by lia.
  exact (proj2 (proj2 (proj2 (take_negative_keeps_the_last_values
                  (λ _ _, Returned tt) (Returned tt) (-2)
                  [(10%Z, 1%nat); (20%Z, 2%nat); (30%Z, 3%nat)] H)))).
Defined.

(** ... and relays them when it is closed. *)
Lemma take_negative_flushes_on_close_witness :
  Take.super_calls
    (Take.aclose (λ _ _, Returned tt) (Returned tt)
       (Take.feed (λ _ _, Returned tt) (Returned tt)
          [(10%Z, 1%nat); (20%Z, 2%nat); (30%Z, 3%nat)]
          (Take.__init__ (-2))).2).2
  = [Take.SuperAsend 20%Z 2%nat; Take.SuperAsend 30%Z 3%nat;
     Take.SuperAclose].
Proof.
  assert (H : (-2 < 0)%Z) by lia.
  exact (proj1 (proj2 (take_negative_flushes_on_close
                  (λ _ _, Returned tt) (Returned tt) (-2)
                  [(10%Z, 1%nat); (20%Z, 2%nat); (30%Z, 3%nat)] H
                  (λ _ _, eq_refl)))).
Defined.

(** A mapper adding the index to the value. *)
Lemma map_with_index_numbers_the_values_witness :
  ∃ s0, MapOp.__init__
          (Some (λ v index, MapOp.Plain (v + default 0 index)%nat)) false true
        = Returned s0
        ∧ (MapOp.feed [10; 20; 30]%nat s0).1
          = [Returned 10; Returned 21; Returned 32]%nat.
Proof.
  assert (H : MapOp.never_raises
                (λ (v : nat) index, MapOp.Plain (v + default 0 index)%nat))
    by (intros v index e; discriminate).
  destruct (map_with_index_numbers_the_values _ false [10; 20; 30]%nat H)
    as (s0 & Hinit & Hfeed & _).
  exists s0. split; [exact Hinit|]. rewrite Hfeed. reflexivity.
Defined.

Lemma max_stream_close_relays_None_witness :
  (MaxClose.__close__ (λ _, Returned tt) (Returned tt)
     ((Max.deliveries [Max.PyInt 3; Max.PyInt 7] Max.__init__).2, [])).2.2
  = [MaxClose.SuperAsend Max.PyNone; MaxClose.SuperAclose].
Proof.
  assert (H : Forall Max.unordered_with_None [Max.PyInt 3; Max.PyInt 7])
    by (repeat constructor).
  exact (proj1 (max_stream_close_relays_None
                  (λ _, Returned tt) (Returned tt) _ H)).
Defined.

End MoreSamples.
